(** * MainProject front end: the screens' state machines

    A shallow embedding of the event handlers of the React components in
    [frontend/src]: the chat screen ([ChatInterface.js]), the moot-court
    simulator, and the login and sign-up forms, together with the router
    table.  Each component is a record of its [useState] cells; each handler
    is a function from the state its closure was rendered with to the next
    state and the list of browser calls it makes.  Pending [setTimeout]
    callbacks are kept in a queue ordered by deadline, each entry carrying
    the values its closure captured when it was scheduled.

    React renders a component again after every handler or timer callback
    and before the next event is dispatched, so the values a handler closes
    over ([messages], [input], ...) are those of the current state; a timer
    callback, on the contrary, keeps the values of the render it was created
    in.  Functional updates [setMessages(prev => ...)] read the current
    state. *)

From Stdlib Require Import QArith Qround.
From stdpp Require Import base decidable option list numbers strings sorting.

Close Scope Q_scope.
Open Scope Z_scope.

(** ** JavaScript values *)

Module JS.

(** A JavaScript string is a sequence of UTF-16 code units. *)
Definition jsstring := list N.

(** String literals of the source (all of them ASCII). *)
Definition lit (s : string) : jsstring :=
  map Ascii.N_of_ascii (String.list_ascii_of_string s).

(** ECMAScript [WhiteSpace] and [LineTerminator] code points, the
    characters [String.prototype.trim] removes. *)
Definition isWhiteSpace (c : N) : bool :=
  ((9 <=? c) && (c <=? 13) ||
   (c =? 32) || (c =? 160) || (c =? 5760) ||
   (8192 <=? c) && (c <=? 8202) ||
   (c =? 8232) || (c =? 8233) || (c =? 8239) || (c =? 8287) ||
   (c =? 12288) || (c =? 65279))%N.

Fixpoint trimStart (s : jsstring) : jsstring :=
  match s with
  | [] => []
  | c :: s' => if isWhiteSpace c then trimStart s' else s
  end.

Definition trimEnd (s : jsstring) : jsstring :=
  reverse (trimStart (reverse s)).

Definition trim (s : jsstring) : jsstring := trimEnd (trimStart s).

(** Truthiness of a string: only the empty string is falsy. *)
Definition truthy (s : jsstring) : bool :=
  match s with [] => false | _ :: _ => true end.

(** An input is blank when it is empty or made of white space only. *)
Definition blank (s : jsstring) : bool := forallb isWhiteSpace s.

(** A [File] of a file input's [FileList]. *)
Record File := { name : jsstring; type : jsstring }.

(** What a callback reads from the browser while it runs: the clock
    ([Date.now()], in milliseconds), the clock as a display string
    ([new Date().toLocaleTimeString()]), [Math.random()] (a double in
    [0, 1), given by its value) and the URL that [URL.createObjectURL]
    hands out. *)
Record Env := {
  now : Z;
  localeTime : jsstring;
  random : Q;
  objectURL : jsstring
}.

(** The browser calls a handler makes.  [Fetch] stands for any request
    sent over the network ([fetch], [XMLHttpRequest], ...). *)
Inductive Effect :=
| PreventDefault
| ConsoleLog (label : jsstring)
| Navigate (path : jsstring)
| SetTimeout (delay : Z)
| CreateObjectURL (f : File)
| Fetch (url : jsstring).

Definition isFetch (e : Effect) : bool :=
  match e with Fetch _ => true | _ => false end.

(** *** Double arithmetic

    [Math.random()] returns a double, and [Math.random() * n] is the
    double nearest to the exact product (ties to the even significand).
    A non-negative rational is given by its numerator [a] and its
    denominator [b]; a double by its value, a rational. *)

(** [2^k <= a/b], for positive [a] and [b]. *)
Definition pow2_le (k a b : Z) : bool :=
  b * 2 ^ Z.max 0 k <=? a * 2 ^ Z.max 0 (- k).

(** The integer part of the binary logarithm of [a/b]. *)
Definition ilog2 (a b : Z) : Z :=
  let e := Z.log2 a - Z.log2 b in
  if pow2_le e a b then e else e - 1.

(** The nearest integer to [a/b], the even one when two are nearest. *)
Definition roundEvenDiv (a b : Z) : Z :=
  let q := a / b in
  match 2 * (a mod b) ?= b with
  | Lt => q
  | Gt => q + 1
  | Eq => if Z.even q then q else q + 1
  end.

(** The exponent of the last place of the doubles around [a/b]: 53
    significant bits, and no exponent below that of the subnormals. *)
Definition ulpExp (a b : Z) : Z := Z.max (ilog2 a b - 52) (-1074).

(** The double nearest to [a/b], as [k * 2^e]. *)
Definition nearestDouble (a b : Z) : Z * Z :=
  let e := ulpExp a b in
  (roundEvenDiv (a * 2 ^ Z.max 0 (- e)) (b * 2 ^ Z.max 0 e), e).

(** [Math.floor] of the double [k * 2^e]. *)
Definition floorScaled (k e : Z) : Z :=
  (k * 2 ^ Z.max 0 e) / 2 ^ Z.max 0 (- e).

(** A rational that is a non-negative finite double: rounding it to the
    nearest double leaves it as it is. *)
Definition isDouble (r : Q) : bool :=
  let a := Qnum r in
  let b := Zpos (Qden r) in
  (a =? 0) ||
  (0 <? a) && (ilog2 a b <? 1024) &&
  ((a * 2 ^ Z.max 0 (- ulpExp a b)) mod (b * 2 ^ Z.max 0 (ulpExp a b)) =? 0).

(** What [Math.random()] can return: a double in [0, 1). *)
Definition validRandom (r : Q) : bool :=
  isDouble r && Qle_bool 0 r && negb (Qle_bool 1 r).

(** [Math.floor(Math.random() * n)] for a random double [r] and an array
    length [n]: the exact product is rounded to the nearest double, then
    floored.  (For [r] below 1 and a length, the product is far below
    the largest double.) *)
Definition randomIndex (r : Q) (n : nat) : nat :=
  let a := Qnum r * Z.of_nat n in
  let b := Zpos (Qden r) in
  if a <=? 0 then 0%nat
  else let '(k, e) := nearestDouble a b in Z.to_nat (floorScaled k e).

(** *** The e-mail input

    An [<input type="email">] holds its value sanitized, and the browser
    checks it when the user submits the form: a value that is neither
    empty nor a valid e-mail address (HTML Standard: a local part of
    letters, digits and [.!#$%&'*+/=?^_`{|}~-], an [@], and labels
    separated by dots, each of 1 to 63 letters, digits and hyphens that
    neither starts nor ends with a hyphen) keeps the [submit] event from
    being dispatched. *)

Definition isAlnum (c : N) : bool :=
  ((48 <=? c) && (c <=? 57) || (65 <=? c) && (c <=? 90) ||
   (97 <=? c) && (c <=? 122))%N.

Definition isAtext (c : N) : bool :=
  isAlnum c ||
  existsb (N.eqb c)
    [33; 35; 36; 37; 38; 39; 42; 43; 45; 46; 47; 61; 63; 94; 95; 96;
     123; 124; 125; 126]%N.

(** The pieces of [s] between the occurrences of [sep]. *)
Fixpoint splitOn (sep : N) (s : jsstring) : list jsstring :=
  match s with
  | [] => [[]]
  | c :: s' =>
      if (c =? sep)%N then [] :: splitOn sep s'
      else match splitOn sep s' with
           | [] => [[c]]
           | w :: ws => (c :: w) :: ws
           end
  end.

Definition validLabel (l : jsstring) : bool :=
  match l, last l with
  | c :: _, Some d =>
      isAlnum c && isAlnum d && (length l <=? 63)%nat &&
      forallb (fun x => isAlnum x || (x =? 45)%N) l
  | _, _ => false
  end.

Definition validEmail (s : jsstring) : bool :=
  match splitOn 64 s with
  | [localPart; domain] =>
      truthy localPart && forallb isAtext localPart &&
      forallb validLabel (splitOn 46 domain)
  | _ => false
  end.

Definition isAsciiSpace (c : N) : bool :=
  ((c =? 9) || (c =? 10) || (c =? 12) || (c =? 13) || (c =? 32))%N.

Fixpoint stripStart (s : jsstring) : jsstring :=
  match s with
  | [] => []
  | c :: s' => if isAsciiSpace c then stripStart s' else s
  end.

(** The value sanitization of the e-mail input: line breaks are removed,
    then leading and trailing ASCII white space. *)
Definition sanitizeEmail (s : jsstring) : jsstring :=
  let v := List.filter (fun c => negb ((c =? 10) || (c =? 13))%N) s in
  reverse (stripStart (reverse (stripStart v))).

(** The e-mail input suffers from a type mismatch. *)
Definition emailMismatch (value : jsstring) : bool :=
  let v := sanitizeEmail value in
  truthy v && negb (validEmail v).

End JS.

(** ** The timer queue

    Pending [setTimeout] callbacks, kept in the order the browser runs them:
    by deadline, and by order of the [setTimeout] calls among equal
    deadlines. *)

Module Timers.
Section Queue.
Context {A : Type}.

Fixpoint schedule (deadline : Z) (cb : A) (q : list (Z * A))
  : list (Z * A) :=
  match q with
  | [] => [(deadline, cb)]
  | (d, c) :: q' =>
      if d <=? deadline then (d, c) :: schedule deadline cb q'
      else (deadline, cb) :: q
  end.

(** The callback the event loop may run at time [now], with the rest of
    the queue: the first one, once its deadline has passed. *)
Definition due (now : Z) (q : list (Z * A)) : option (A * list (Z * A)) :=
  match q with
  | [] => None
  | (d, c) :: q' => if d <=? now then Some (c, q') else None
  end.

End Queue.
End Timers.

(** ** Messages *)

Import JS.

(** The roles a message can come from (the [sender] strings of the two
    screens: ['user'], ['bot'], and [ACTORS.JUDGE], [ACTORS.OPPONENT]). *)
Inductive Sender := user | bot | judge | opponent.

#[global] Instance Sender_eq_dec : EqDecision Sender.
Proof. solve_decision. Defined.

(** A message object.  The chat screen's messages carry a [timestamp] and,
    for an upload, an [image]; the moot-court ones have neither field. *)
Record Message := {
  id : Z;
  text : jsstring;
  image : option jsstring;
  sender : Sender;
  timestamp : option jsstring
}.

#[global] Instance Message_eq_dec : EqDecision Message.
Proof. solve_decision. Defined.

(** A reply is a message of one of the simulated roles. *)
Definition isReply (m : Message) : bool :=
  match sender m with user => false | _ => true end.

(** How many messages of a list come from a given role. *)
Definition sent (who : Sender) (l : list Message) : nat :=
  length (filter (fun m => sender m = who) l).

(** One submission answered by one reply: the list has grown by the user's
    message with the text of the input, followed by exactly one reply. *)
Definition oneReply (before after : list Message) (input : jsstring) : Prop :=
  exists u r, after = before ++ [u; r] /\
    sender u = user /\ text u = input /\ isReply r = true.

(** ** The chat screen ([ChatInterface.js]) *)

Module Chat.

(** The two [setTimeout] callbacks.  The one of [handleSend] closes over
    [messages] of the render that scheduled it, and takes the id of its
    reply from there ([messages.length + 2]); the one of
    [handleImageUpload] reads everything from [prev]. *)
Inductive Timer :=
| BotResponse (botId : Z)
| AnalysisResponse.

#[global] Instance Timer_eq_dec : EqDecision Timer.
Proof. solve_decision. Defined.

Record State := {
  messages : list Message;
  input : jsstring;
  isTyping : bool;
  timers : list (Z * Timer)
}.

#[global] Instance State_eq_dec : EqDecision State.
Proof. solve_decision. Defined.

Definition welcomeText : jsstring :=
  lit "Hello! I am your AI Legal Assistant. You can ask me about Indian Penal Codes, draft legal documents, or upload case files for analysis. How can I help you today?".

Definition placeholderText : jsstring :=
  lit "I have received your query regarding this legal matter. Based on Indian law context, I would suggest looking into Section of the specific act. (This is a placeholder response).".

Definition uploadText : jsstring := lit "Analyzed attached document:".

Definition analysisText : jsstring :=
  lit "I've scanned the document you uploaded. It appears to be a legal notice. Would you like me to summarize the key points?".

(** The [useState] initial values, evaluated when the screen mounts. *)
Definition mount (env : Env) : State :=
  {| messages :=
       [ {| id := 1; text := welcomeText; image := None; sender := bot;
            timestamp := Some (localeTime env) |} ];
     input := [];
     isTyping := false;
     timers := [] |}.

(** [onChange] of the text input: [setInput(e.target.value)]. *)
Definition handleInput (value : jsstring) (st : State) : State :=
  {| messages := messages st; input := value;
     isTyping := isTyping st; timers := timers st |}.

Definition handleSend (env : Env) (st : State) : State * list Effect :=
  if negb (truthy (trim (input st))) then (st, [PreventDefault])
  else
    let newMessage :=
      {| id := Z.of_nat (length (messages st)) + 1;
         text := input st;
         image := None;
         sender := user;
         timestamp := Some (localeTime env) |} in
    ({| messages := messages st ++ [newMessage];
        input := [];
        isTyping := true;
        timers :=
          Timers.schedule (now env + 1500)
            (BotResponse (Z.of_nat (length (messages st)) + 2))
            (timers st) |},
     [PreventDefault; SetTimeout 1500]).

Definition handleImageUpload (env : Env) (files : list File) (st : State)
  : State * list Effect :=
  match head files with
  | None => (st, [])
  | Some file =>
      let imageUrl := objectURL env in
      let newMessage :=
        {| id := Z.of_nat (length (messages st)) + 1;
           text := uploadText;
           image := Some imageUrl;
           sender := user;
           timestamp := Some (localeTime env) |} in
      ({| messages := messages st ++ [newMessage];
          input := input st;
          isTyping := true;
          timers :=
            Timers.schedule (now env + 2000) AnalysisResponse (timers st) |},
       [CreateObjectURL file; SetTimeout 2000])
  end.

(** The message a timer callback appends; [prev] is the list the
    functional update receives. *)
Definition reply (env : Env) (cb : Timer) (prev : list Message) : Message :=
  match cb with
  | BotResponse botId =>
      {| id := botId; text := placeholderText; image := None;
         sender := bot; timestamp := Some (localeTime env) |}
  | AnalysisResponse =>
      {| id := Z.of_nat (length prev) + 1; text := analysisText;
         image := None; sender := bot;
         timestamp := Some (localeTime env) |}
  end.

(** A timer callback, run on the state [st] with the queue [rest] left. *)
Definition runTimer (env : Env) (cb : Timer) (rest : list (Z * Timer))
    (st : State) : State :=
  {| messages := messages st ++ [reply env cb (messages st)];
     input := input st;
     isTyping := false;
     timers := rest |}.

(** What can happen on the screen: the user edits the text input, submits
    the form, picks files in the file input, or the event loop runs the
    next timer callback that is due. *)
Inductive Event :=
| Change (value : jsstring)
| Submit
| FileChange (files : list File)
| Timeout.

Definition step (env : Env) (st : State) (ev : Event)
  : option (State * list Effect) :=
  match ev with
  | Change value => Some (handleInput value st, [])
  | Submit => Some (handleSend env st)
  | FileChange files => Some (handleImageUpload env files st)
  | Timeout =>
      match Timers.due (now env) (timers st) with
      | Some (cb, rest) => Some (runTimer env cb rest st, [])
      | None => None
      end
  end.

(** Runs of the screen: a list of events, each with what the browser
    answers during it. *)
Fixpoint run (st : State) (evs : list (Env * Event)) : option State :=
  match evs with
  | [] => Some st
  | (env, ev) :: evs' =>
      match step env st ev with
      | Some (st', _) => run st' evs'
      | None => None
      end
  end.

Inductive reachable : State -> Prop :=
| reachable_mount env : reachable (mount env)
| reachable_step env st ev st' effs :
    reachable st -> step env st ev = Some (st', effs) -> reachable st'.

(** The [navigate] call of the Moot Court Simulator button. *)
Definition toCourt : list Effect := [Navigate (lit "/court")].

(** A user who waits: a step is patient when the form is submitted and
    files are picked only while no reply is pending. *)
Definition patient (st : State) (ev : Event) : bool :=
  match ev with
  | Submit | FileChange _ => bool_decide (timers st = [])
  | Change _ | Timeout => true
  end.

Inductive reachablePatient : State -> Prop :=
| patient_mount env : reachablePatient (mount env)
| patient_step env st ev st' effs :
    reachablePatient st -> patient st ev = true ->
    step env st ev = Some (st', effs) -> reachablePatient st'.

End Chat.

(** ** The moot-court screen *)

Module Moot.

(** The two nested [setTimeout] callbacks of [handleUserSubmit]. *)
Inductive Timer := OpponentTurn | JudgeTurn.

#[global] Instance Timer_eq_dec : EqDecision Timer.
Proof. solve_decision. Defined.

Record State := {
  messages : list Message;
  inputText : jsstring;
  isSimulating : bool;
  timers : list (Z * Timer)
}.

#[global] Instance State_eq_dec : EqDecision State.
Proof. solve_decision. Defined.

Definition openingText : jsstring :=
  lit "Court is now in session. The Defendant may present their opening statement.".

Definition mount : State :=
  {| messages :=
       [ {| id := 1; text := openingText; image := None; sender := judge;
            timestamp := None |} ];
     inputText := [];
     isSimulating := false;
     timers := [] |}.

Definition opponentResponses : list jsstring :=
  [ lit "Objection! The counsel is leading the witness.";
    lit "That is purely circumstantial evidence.";
    lit "My learned friend fails to consider the precedence set in 1994.";
    lit "I strongly disagree with that characterization of the facts.";
    lit "The prosecution has not met the burden of proof." ].

Definition judgeResponses : list jsstring :=
  [ lit "Order in the court. I will allow the argument, proceed.";
    lit "Sustained. Please rephrase, Counselor.";
    lit "Overruled. The witness will answer the question.";
    lit "I have heard enough on this point. Move along.";
    lit "Noted. Let us see where this leads." ].

(** [responses[Math.floor(Math.random() * responses.length)]].  The
    default of [nth] stands for the [undefined] of an index out of range;
    for a double in [0, 1) and these five entries the index is in range
    ([JSFacts.randomIndex_5]). *)
Definition generateOpponentResponse (env : Env) : jsstring :=
  nth (randomIndex (random env) (length opponentResponses))
    opponentResponses [].

Definition generateJudgeResponse (env : Env) : jsstring :=
  nth (randomIndex (random env) (length judgeResponses))
    judgeResponses [].

(** [onChange] of the argument input: [setInputText(e.target.value)]. *)
Definition handleInput (value : jsstring) (st : State) : State :=
  {| messages := messages st; inputText := value;
     isSimulating := isSimulating st; timers := timers st |}.

Definition handleUserSubmit (env : Env) (st : State) : State * list Effect :=
  if negb (truthy (trim (inputText st))) then (st, [PreventDefault])
  else
    let userMsg :=
      {| id := now env; text := inputText st; image := None;
         sender := user; timestamp := None |} in
    ({| messages := messages st ++ [userMsg];
        inputText := [];
        isSimulating := true;
        timers := Timers.schedule (now env + 1500) OpponentTurn (timers st) |},
     [PreventDefault; SetTimeout 1500]).

(** A timer callback, run on the state [st] with the queue [rest] left:
    the outer one appends the opponent's message and schedules the inner
    one, which appends the judge's and clears the flag. *)
Definition runTimer (env : Env) (cb : Timer) (rest : list (Z * Timer))
    (st : State) : State * list Effect :=
  match cb with
  | OpponentTurn =>
      let opponentMsg :=
        {| id := now env + 1; text := generateOpponentResponse env;
           image := None; sender := opponent; timestamp := None |} in
      ({| messages := messages st ++ [opponentMsg];
          inputText := inputText st;
          isSimulating := isSimulating st;
          timers := Timers.schedule (now env + 2000) JudgeTurn rest |},
       [SetTimeout 2000])
  | JudgeTurn =>
      let judgeMsg :=
        {| id := now env + 2; text := generateJudgeResponse env;
           image := None; sender := judge; timestamp := None |} in
      ({| messages := messages st ++ [judgeMsg];
          inputText := inputText st;
          isSimulating := false;
          timers := rest |},
       [])
  end.

(** The [disabled] attributes of the argument input and of the Present
    button. *)
Definition inputDisabled (st : State) : bool := isSimulating st.
Definition buttonDisabled (st : State) : bool := isSimulating st.

Inductive Event :=
| Change (value : jsstring)
| Submit
| Timeout.

(** The user can edit the input only while it is enabled, and can submit
    the form (the Present button, or Enter in the input) only while one
    of the two is enabled. *)
Definition step (env : Env) (st : State) (ev : Event)
  : option (State * list Effect) :=
  match ev with
  | Change value =>
      if inputDisabled st then None else Some (handleInput value st, [])
  | Submit =>
      if inputDisabled st && buttonDisabled st then None
      else Some (handleUserSubmit env st)
  | Timeout =>
      match Timers.due (now env) (timers st) with
      | Some (cb, rest) => Some (runTimer env cb rest st)
      | None => None
      end
  end.

Fixpoint run (st : State) (evs : list (Env * Event)) : option State :=
  match evs with
  | [] => Some st
  | (env, ev) :: evs' =>
      match step env st ev with
      | Some (st', _) => run st' evs'
      | None => None
      end
  end.

Inductive reachable : State -> Prop :=
| reachable_mount : reachable mount
| reachable_step env st ev st' effs :
    reachable st -> step env st ev = Some (st', effs) -> reachable st'.

(** What the flag and the last message are for each content of the queue:
    nothing pending and the flag off; or the outer callback pending, the
    flag on and the user's message last; or the inner callback pending, the
    flag on and the opponent's message last. *)
Definition consistent (st : State) : Prop :=
  match timers st with
  | [] => isSimulating st = false
  | [(_, OpponentTurn)] =>
      isSimulating st = true /\ sender <$> last (messages st) = Some user
  | [(_, JudgeTurn)] =>
      isSimulating st = true /\ sender <$> last (messages st) = Some opponent
  | _ => False
  end.

(** [[...messages].reverse().find(m => m.sender === ACTORS.JUDGE)] *)
Definition latestJudgeMessage (st : State) : option Message :=
  find (fun m => bool_decide (sender m = judge)) (reverse (messages st)).

(** The judge's speech bubble: whether it is visible, and its text. *)
Definition judgeBubble (st : State) : bool * jsstring :=
  match latestJudgeMessage st with
  | Some m => (true, text m)
  | None => (false, lit "...")
  end.

(** A row of the argument floor: its React key, the side it is on, its
    label and its text. *)
Record Row := {
  key : Z;
  isUser : bool;
  label : jsstring;
  body : jsstring
}.

(** [messages.map(...)] of the argument floor: the judge's messages render
    nothing, the others one row each. *)
Definition argumentFloor (st : State) : list Row :=
  omap (fun msg =>
          if bool_decide (sender msg = judge) then None
          else
            let isUser := bool_decide (sender msg = user) in
            Some {| key := id msg;
                    isUser := isUser;
                    label := if isUser then lit "Counsel (You)"
                             else lit "Opposing Counsel";
                    body := text msg |})
       (messages st).

Definition floorKeys (st : State) : list Z := key <$> argumentFloor st.

(** The keys of the floor at a time [t] that no later event precedes: they
    increase along the floor, and they are below [t] when nothing is
    pending, at most the deadline while the opponent's reply is pending,
    and below the deadline while the judge's is. *)
Definition floorInv (t : Z) (st : State) : Prop :=
  StronglySorted Z.lt (floorKeys st) /\
  match timers st with
  | [] => isSimulating st = false /\ Forall (fun k => k < t) (floorKeys st)
  | [(d, OpponentTurn)] =>
      isSimulating st = true /\ Forall (fun k => k <= d) (floorKeys st)
  | [(d, JudgeTurn)] =>
      isSimulating st = true /\ Forall (fun k => k < d) (floorKeys st)
  | _ => False
  end.

(** The senders of a session after [n] complete exchanges: the judge's
    opening, then [n] times an argument, the opponent's reply and the
    judge's. *)
Definition exchanges (n : nat) : list Sender :=
  judge :: mjoin (replicate n [user; opponent; judge]).

(** The part of an exchange already in the list, by what is pending. *)
Definition underway (q : list (Z * Timer)) : list Sender :=
  match q with
  | [] => []
  | (_, OpponentTurn) :: _ => [user]
  | (_, JudgeTurn) :: _ => [user; opponent]
  end.

End Moot.

(** ** The login form ([login.js]) *)

Module Login.

Record Credentials := { email : jsstring; password : jsstring }.

Record State := { credentials : Credentials; error : jsstring }.

Definition mount : State :=
  {| credentials := {| email := []; password := [] |}; error := [] |}.

(** The [name] attribute of the input that changed. *)
Inductive Field := Email | Password.

Definition handleChange (name : Field) (value : jsstring) (st : State)
  : State :=
  {| credentials :=
       match name with
       | Email =>
           {| email := value; password := password (credentials st) |}
       | Password =>
           {| email := email (credentials st); password := value |}
       end;
     error := if truthy (error st) then [] else error st |}.

Definition missingText : jsstring :=
  lit "Please enter both email and password.".

Definition handleSubmit (st : State) : State * list Effect :=
  if negb (truthy (email (credentials st)))
     || negb (truthy (password (credentials st)))
  then ({| credentials := credentials st; error := missingText |},
        [PreventDefault])
  else (st, [PreventDefault; ConsoleLog (lit "Logging in with:");
             Navigate (lit "/chat")]).

(** The [navigate] calls of the footer links. *)
Definition toSignUp : list Effect := [Navigate (lit "/signup")].
Definition toHome : list Effect := [Navigate (lit "/")].

(** What the user does on the form: type in a field, or submit. *)
Inductive Event :=
| Change (name : Field) (value : jsstring)
| Submit.

(** The browser's validation of the fields when the user submits: the
    e-mail input is the only one with a constraint (no field is
    [required], and the form has no [noValidate]). *)
Definition submittable (st : State) : bool :=
  negb (emailMismatch (email (credentials st))).

(** A submission the validation refuses dispatches no [submit] event:
    [handleSubmit] does not run and nothing changes. *)
Definition step (st : State) (ev : Event) : State * list Effect :=
  match ev with
  | Change name value => (handleChange name value st, [])
  | Submit => if submittable st then handleSubmit st else (st, [])
  end.

(** Typing a sequence of values, each in its field. *)
Definition typeAll (st : State) (keys : list (Field * jsstring)) : State :=
  foldl (fun st kv => handleChange kv.1 kv.2 st) st keys.

Inductive reachable : State -> Prop :=
| reachable_mount : reachable mount
| reachable_step st ev : reachable st -> reachable (fst (step st ev)).

End Login.

(** ** The sign-up form ([signup.js]) *)

Module SignUp.

Record FormData := {
  email : jsstring;
  password : jsstring;
  confirmPassword : jsstring
}.

Record State := { formData : FormData; error : jsstring }.

Definition mount : State :=
  {| formData := {| email := []; password := []; confirmPassword := [] |};
     error := [] |}.

Inductive Field := Email | Password | ConfirmPassword.

Definition handleChange (name : Field) (value : jsstring) (st : State)
  : State :=
  let d := formData st in
  {| formData :=
       match name with
       | Email =>
           {| email := value; password := password d;
              confirmPassword := confirmPassword d |}
       | Password =>
           {| email := email d; password := value;
              confirmPassword := confirmPassword d |}
       | ConfirmPassword =>
           {| email := email d; password := password d;
              confirmPassword := value |}
       end;
     error := if truthy (error st) then [] else error st |}.

Definition missingText : jsstring := lit "Please fill in all fields.".
Definition mismatchText : jsstring := lit "Passwords do not match!".

Definition handleSubmit (st : State) : State * list Effect :=
  let d := formData st in
  if negb (truthy (email d)) || negb (truthy (password d))
     || negb (truthy (confirmPassword d))
  then ({| formData := d; error := missingText |}, [PreventDefault])
  else if negb (bool_decide (password d = confirmPassword d))
  then ({| formData := d; error := mismatchText |}, [PreventDefault])
  else (st, [PreventDefault; ConsoleLog (lit "User Registered:");
             Navigate (lit "/chat")]).

(** The [navigate] calls of the footer links. *)
Definition toLogin : list Effect := [Navigate (lit "/login")].
Definition toHome : list Effect := [Navigate (lit "/")].

Inductive Event :=
| Change (name : Field) (value : jsstring)
| Submit.

(** The browser's validation of the fields when the user submits: the
    e-mail input is the only one with a constraint (no field is
    [required], and the form has no [noValidate]). *)
Definition submittable (st : State) : bool :=
  negb (emailMismatch (email (formData st))).

(** A submission the validation refuses dispatches no [submit] event:
    [handleSubmit] does not run and nothing changes. *)
Definition step (st : State) (ev : Event) : State * list Effect :=
  match ev with
  | Change name value => (handleChange name value st, [])
  | Submit => if submittable st then handleSubmit st else (st, [])
  end.

(** Typing a sequence of values, each in its field. *)
Definition typeAll (st : State) (keys : list (Field * jsstring)) : State :=
  foldl (fun st kv => handleChange kv.1 kv.2 st) st keys.

Inductive reachable : State -> Prop :=
| reachable_mount : reachable mount
| reachable_step st ev : reachable st -> reachable (fst (step st ev)).

End SignUp.

(** ** The router table ([App.js]) *)

Module Router.

Inductive Screen := LandingPage | SignUp | Login | ChatInterface | MootCourt.

Definition routes : list (jsstring * Screen) :=
  [ (lit "/", LandingPage);
    (lit "/signup", SignUp);
    (lit "/login", Login);
    (lit "/chat", ChatInterface);
    (lit "/court", MootCourt) ].

(** The screen a path is routed to: the first route whose path it is. *)
Fixpoint lookup (path : jsstring) (table : list (jsstring * Screen))
  : option Screen :=
  match table with
  | [] => None
  | (p, s) :: table' =>
      if bool_decide (p = path) then Some s else lookup path table'
  end.

Definition route (path : jsstring) : option Screen := lookup path routes.

(** The screens a handler's [navigate] calls lead to. *)
Definition navigations (effs : list Effect) : list (option Screen) :=
  omap (fun e => match e with
                 | Navigate path => Some (route path)
                 | _ => None
                 end) effs.

End Router.

(** ** The landing page and the application ([App.js]) *)

Module Landing.

(** The [navigate] calls of the Login and Sign Up buttons. *)
Definition toLogin : list Effect := [Navigate (lit "/login")].
Definition toSignUp : list Effect := [Navigate (lit "/signup")].

End Landing.

Module App.

(** What is on the page: the screen of the matching route, with its
    state, or nothing when no route matches. *)
Inductive Page :=
| LandingPage
| LoginPage (st : Login.State)
| SignUpPage (st : SignUp.State)
| ChatPage (st : Chat.State)
| CourtPage (st : Moot.State)
| NoMatch.

(** The element of a route, freshly mounted. *)
Definition mount (env : Env) (s : Router.Screen) : Page :=
  match s with
  | Router.LandingPage => LandingPage
  | Router.SignUp => SignUpPage SignUp.mount
  | Router.Login => LoginPage Login.mount
  | Router.ChatInterface => ChatPage (Chat.mount env)
  | Router.MootCourt => CourtPage Moot.mount
  end.

Definition goto (env : Env) (path : jsstring) : Page :=
  match Router.route path with
  | Some s => mount env s
  | None => NoMatch
  end.

(** The page after a handler: the one its last [navigate] call leads to,
    or the page it was on when it navigates nowhere. *)
Definition follow (env : Env) (effs : list Effect) (stay : Page) : Page :=
  foldl (fun page e =>
           match e with
           | Navigate path => goto env path
           | _ => page
           end) stay effs.

(** What the user can do through the pages themselves: the buttons and
    links that navigate, and the events of the screen that is mounted. *)
Inductive Event :=
| LandingLogin
| LandingSignUp
| LoginEvent (ev : Login.Event)
| LoginSignUpLink
| LoginHomeLink
| SignUpEvent (ev : SignUp.Event)
| SignUpLoginLink
| SignUpHomeLink
| ChatEvent (ev : Chat.Event)
| ChatCourtButton
| CourtEvent (ev : Moot.Event).

Definition step (env : Env) (page : Page) (ev : Event) : option Page :=
  match page, ev with
  | LandingPage, LandingLogin => Some (follow env Landing.toLogin page)
  | LandingPage, LandingSignUp => Some (follow env Landing.toSignUp page)
  | LoginPage st, LoginEvent e =>
      Some (follow env (snd (Login.step st e))
              (LoginPage (fst (Login.step st e))))
  | LoginPage _, LoginSignUpLink => Some (follow env Login.toSignUp page)
  | LoginPage _, LoginHomeLink => Some (follow env Login.toHome page)
  | SignUpPage st, SignUpEvent e =>
      Some (follow env (snd (SignUp.step st e))
              (SignUpPage (fst (SignUp.step st e))))
  | SignUpPage _, SignUpLoginLink => Some (follow env SignUp.toLogin page)
  | SignUpPage _, SignUpHomeLink => Some (follow env SignUp.toHome page)
  | ChatPage st, ChatEvent e =>
      match Chat.step env st e with
      | Some (st', effs) => Some (follow env effs (ChatPage st'))
      | None => None
      end
  | ChatPage _, ChatCourtButton => Some (follow env Chat.toCourt page)
  | CourtPage st, CourtEvent e =>
      match Moot.step env st e with
      | Some (st', effs) => Some (follow env effs (CourtPage st'))
      | None => None
      end
  | _, _ => None
  end.

(** The pages the user can get to from the landing page. *)
Inductive reachable : Page -> Prop :=
| reachable_landing : reachable LandingPage
| reachable_step env page ev page' :
    reachable page -> step env page ev = Some page' -> reachable page'.

End App.

(** ** Runs in time order *)

Module Clock.

(** The events of a run come in time order, none before [t]: the clock the
    callbacks read never goes back. *)
Fixpoint chronological {E : Type} (t : Z) (evs : list (Env * E)) : Prop :=
  match evs with
  | [] => True
  | (env, _) :: evs' => t <= now env /\ chronological (now env) evs'
  end.

End Clock.

(** ** Sample inputs *)

Module Sample.

(** What the browser answers at [ms] milliseconds after some instant of
    November 2025. *)
Definition at_ms (ms : Z) : Env :=
  {| now := 1762000000000 + ms;
     localeTime := lit "10:15:00 AM";
     random := 1 # 2;
     objectURL := lit "blob:http://localhost:3000/5f0c" |}.

Definition notice : File :=
  {| name := lit "notice.pdf"; type := lit "application/pdf" |}.

(** A query sent on the chat screen, and a second one 400 ms later, before
    the reply to the first, which comes 1500 ms after it. *)
Definition twoQueries : list (Env * Chat.Event) :=
  [ (at_ms 1000, Chat.Change (lit "a")); (at_ms 1000, Chat.Submit);
    (at_ms 1400, Chat.Change (lit "b")); (at_ms 1400, Chat.Submit);
    (at_ms 2500, Chat.Timeout) ].

(** One argument presented on the moot-court screen, and the two timer
    callbacks that follow it. *)
Definition oneArgument : list (Env * Moot.Event) :=
  [ (at_ms 1000, Moot.Change (lit "x")); (at_ms 1000, Moot.Submit);
    (at_ms 2500, Moot.Timeout); (at_ms 4500, Moot.Timeout) ].

(** The chat screen after a file was picked at 1000 ms. *)
Definition chatUploaded : Chat.State :=
  fst (Chat.handleImageUpload (at_ms 1000) [notice] (Chat.mount (at_ms 0))).

(** The chat screen with a query typed, and after it was sent at 1000 ms. *)
Definition chatTyped : Chat.State :=
  Chat.handleInput (lit "a") (Chat.mount (at_ms 0)).

Definition chatSent : Chat.State :=
  fst (Chat.handleSend (at_ms 1000) chatTyped).

(** The moot-court screen with an argument typed, after it was presented at
    1000 ms, and after the opponent's reply at 2500 ms. *)
Definition mootTyped : Moot.State := Moot.handleInput (lit "x") Moot.mount.

Definition mootSent : Moot.State :=
  fst (Moot.handleUserSubmit (at_ms 1000) mootTyped).

Definition mootOpposed : Moot.State :=
  fst (Moot.runTimer (at_ms 2500) Moot.OpponentTurn [] mootSent).

(** The login form with both fields filled in. *)
Definition loginFilled : Login.State :=
  Login.handleChange Login.Password (lit "pw")
    (Login.handleChange Login.Email (lit "a@b.in") Login.mount).

End Sample.

(** * Properties *)

(** ** Facts on strings and on [Math.random] *)

Module JSFacts.

Lemma trimStart_nil_iff (s : jsstring) :
  trimStart s = [] <-> blank s = true.
Proof.
  induction s as [|c s IH]; simpl; [done|].
  destruct (isWhiteSpace c); simpl; [exact IH|].
  split; discriminate.
Qed.

Lemma trim_nil_iff (s : jsstring) : trim s = [] <-> blank s = true.
Proof.
  unfold trim, trimEnd. split.
  - intros H. apply trimStart_nil_iff.
    destruct (trimStart s) as [|c t] eqn:E; [done|].
    exfalso.
    assert (Hr : trimStart (reverse (c :: t)) = []).
    { apply (f_equal reverse) in H. rewrite reverse_involutive in H.
      exact H. }
    apply trimStart_nil_iff in Hr. unfold blank in Hr.
    rewrite forallb_forall in Hr.
    assert (Hc : isWhiteSpace c = true).
    { apply Hr. apply list_elem_of_In. rewrite elem_of_reverse. left. }
    clear -E Hc. induction s as [|d s IH]; simpl in E; [done|].
    destruct (isWhiteSpace d) eqn:Ed; [auto|].
    congruence.
  - intros H. apply trimStart_nil_iff in H. rewrite H. reflexivity.
Qed.

Lemma truthy_trim (s : jsstring) : truthy (trim s) = negb (blank s).
Proof.
  destruct (blank s) eqn:E.
  - apply trim_nil_iff in E. rewrite E. reflexivity.
  - destruct (trim s) eqn:T; [|reflexivity].
    apply trim_nil_iff in T. congruence.
Qed.

Lemma pow2_le_shift (k a b M : Z) :
  - M <= k <= M ->
  (pow2_le k a b = true <-> b * 2 ^ (M + k) <= a * 2 ^ M).
Proof.
  intros HM. unfold pow2_le. rewrite Z.leb_le.
  destruct (Z.le_gt_cases 0 k) as [Hk|Hk].
  - rewrite (Z.max_r 0 k), (Z.max_l 0 (- k)) by lia.
    rewrite Z.pow_0_r, Z.pow_add_r by lia.
    assert (0 < 2 ^ M) by (apply Z.pow_pos_nonneg; lia). nia.
  - rewrite (Z.max_l 0 k), (Z.max_r 0 (- k)) by lia.
    rewrite Z.pow_0_r.
    replace M with ((M + k) + - k) at 2 by lia.
    rewrite (Z.pow_add_r 2 (M + k) (- k)) by lia.
    assert (0 < 2 ^ (M + k)) by (apply Z.pow_pos_nonneg; lia). nia.
Qed.

Lemma pow2_le_mono (k k' a b : Z) :
  0 < b -> k' <= k -> pow2_le k a b = true -> pow2_le k' a b = true.
Proof.
  intros Hb Hk H.
  apply (pow2_le_shift k a b (Z.abs k + Z.abs k')) in H; [|lia].
  apply (pow2_le_shift k' a b (Z.abs k + Z.abs k')); [lia|].
  etrans; [|exact H]. apply Z.mul_le_mono_nonneg_l; [lia|].
  apply Z.pow_le_mono_r; lia.
Qed.

Lemma ilog2_spec (a b : Z) :
  0 < a -> 0 < b ->
  pow2_le (ilog2 a b) a b = true /\ pow2_le (ilog2 a b + 1) a b = false.
Proof.
  intros Ha Hb. unfold ilog2.
  destruct (Z.log2_spec a Ha) as [Ha1 Ha2].
  destruct (Z.log2_spec b Hb) as [Hb1 Hb2].
  pose proof (Z.log2_nonneg a) as Hla. pose proof (Z.log2_nonneg b) as Hlb.
  rewrite Z.pow_succ_r in Ha2, Hb2 by lia.
  set (la := Z.log2 a) in *. set (lb := Z.log2 b) in *.
  assert (HX : 0 < 2 ^ la) by (apply Z.pow_pos_nonneg; lia).
  assert (HY : 0 < 2 ^ lb) by (apply Z.pow_pos_nonneg; lia).
  assert (EM : 2 ^ (la + lb + 2) = 2 ^ la * 2 ^ lb * 4).
  { by rewrite !Z.pow_add_r by lia. }
  assert (Hlow : pow2_le (la - lb - 1) a b = true).
  { apply (pow2_le_shift _ a b (la + lb + 2)); [lia|].
    replace (la + lb + 2 + (la - lb - 1)) with (la + la + 1) by lia.
    rewrite EM, !Z.pow_add_r by lia. change (2 ^ 1) with 2.
    assert (Hc : b * (2 ^ la * 2) <= a * (2 ^ lb * 4)) by nia.
    nia. }
  assert (Hhigh : pow2_le (la - lb + 1) a b = false).
  { apply not_true_is_false. intros H.
    apply (pow2_le_shift _ a b (la + lb + 2)) in H; [|lia].
    replace (la + lb + 2 + (la - lb + 1)) with (la + la + 3) in H by lia.
    rewrite EM, !Z.pow_add_r in H by lia. change (2 ^ 3) with 8 in H.
    assert (Hc : a * (2 ^ lb * 4) < b * (2 ^ la * 8)) by nia.
    nia. }
  destruct (pow2_le (la - lb) a b) eqn:E.
  - split; [exact E|exact Hhigh].
  - split; [exact Hlow|]. by replace (la - lb - 1 + 1) with (la - lb) by lia.
Qed.

Lemma ilog2_lt (k a b : Z) :
  0 < a -> 0 < b -> pow2_le k a b = false -> ilog2 a b < k.
Proof.
  intros Ha Hb H. destruct (Z.lt_ge_cases (ilog2 a b) k) as [|Hk]; [done|].
  destruct (ilog2_spec a b Ha Hb) as [Hl _].
  rewrite (pow2_le_mono _ _ _ _ Hb Hk Hl) in H. discriminate.
Qed.

Lemma ilog2_ge (k a b : Z) :
  0 < a -> 0 < b -> pow2_le k a b = true -> k <= ilog2 a b.
Proof.
  intros Ha Hb H. destruct (Z.le_gt_cases k (ilog2 a b)) as [|Hk]; [done|].
  destruct (ilog2_spec a b Ha Hb) as [_ Hh].
  rewrite (pow2_le_mono k (ilog2 a b + 1) a b Hb) in Hh; [discriminate|lia|exact H].
Qed.

Lemma pow2_le_nonneg (k a b : Z) :
  0 <= k -> pow2_le k a b = (b * 2 ^ k <=? a).
Proof.
  intros Hk. unfold pow2_le.
  by rewrite (Z.max_r 0 k), (Z.max_l 0 (- k)), Z.pow_0_r, Z.mul_1_r by lia.
Qed.

Lemma pow2_le_neg (k a b : Z) :
  k <= 0 -> pow2_le k a b = (b <=? a * 2 ^ (- k)).
Proof.
  intros Hk. unfold pow2_le.
  by rewrite (Z.max_l 0 k), (Z.max_r 0 (- k)), Z.pow_0_r, Z.mul_1_r by lia.
Qed.

Lemma roundEvenDiv_le (p b : Z) : roundEvenDiv p b <= p / b + 1.
Proof.
  unfold roundEvenDiv.
  destruct (2 * (p mod b) ?= b); [destruct (Z.even (p / b))|..]; lia.
Qed.

Lemma roundEvenDiv_down (p b : Z) :
  2 * (p mod b) < b -> roundEvenDiv p b = p / b.
Proof.
  intros H. unfold roundEvenDiv.
  by rewrite (proj2 (Z.compare_lt_iff _ _) H).
Qed.

(** A double below 1 is at most [1 - 2^-53]. *)
Lemma double_below_one (r : Q) :
  validRandom r = true ->
  0 <= Qnum r < Zpos (Qden r) /\
  2 ^ 53 * Qnum r <= (2 ^ 53 - 1) * Zpos (Qden r).
Proof.
  unfold validRandom, isDouble, Qle_bool. destruct r as [a b]; simpl.
  rewrite !andb_true_iff, negb_true_iff, Z.leb_le, Z.leb_gt.
  intros [[Hd H0] H1].
  assert (Hab : 0 <= a < Z.pos b) by lia. split; [exact Hab|].
  apply orb_true_iff in Hd as [Hz|Hd]; [apply Z.eqb_eq in Hz; lia|].
  rewrite !andb_true_iff, Z.ltb_lt, Z.eqb_eq in Hd.
  destruct Hd as [[Ha _] Hint].
  assert (Hil : ilog2 a (Z.pos b) < 0).
  { apply ilog2_lt; [lia..|]. rewrite pow2_le_nonneg by lia.
    apply Z.leb_gt. lia. }
  unfold ulpExp in Hint.
  set (e := Z.max (ilog2 a (Z.pos b) - 52) (-1074)) in *.
  assert (He : e <= -53) by lia.
  rewrite (Z.max_r 0 (- e)), (Z.max_l 0 e), Z.pow_0_r, Z.mul_1_r in Hint by lia.
  destruct (Z.eq_dec e (-53)) as [->|Hne].
  - change (- -53) with 53 in Hint.
    apply Z.mod_divide in Hint as [c Hc]; [|lia].
    assert (c < 2 ^ 53) by nia. nia.
  - assert (Hil2 : ilog2 a (Z.pos b) + 1 <= -1) by lia.
    destruct (ilog2_spec a (Z.pos b)) as [_ Hh]; [lia..|].
    assert (Hhalf : pow2_le (-1) a (Z.pos b) = false).
    { apply not_true_is_false. intros Ht.
      rewrite (pow2_le_mono (-1) _ a (Z.pos b)) in Hh; [done|lia|lia|done]. }
    rewrite pow2_le_neg in Hhalf by lia. apply Z.leb_gt in Hhalf.
    change (2 ^ (- -1)) with 2 in Hhalf. lia.
Qed.

(** The index [Math.floor(Math.random() * 5)] is in range. *)
Lemma randomIndex_5 (r : Q) :
  validRandom r = true -> (randomIndex r 5 < 5)%nat.
Proof.
  intros Hv. destruct (double_below_one r Hv) as [Hab Htop].
  unfold randomIndex. change (Z.of_nat 5) with 5.
  set (a := Qnum r) in *. set (b := Z.pos (Qden r)) in *.
  destruct (Z.leb_spec (a * 5) 0) as [|Ha]; [lia|].
  unfold nearestDouble, floorScaled, ulpExp.
  assert (Hil : ilog2 (a * 5) b < 3).
  { apply ilog2_lt; [lia..|]. rewrite pow2_le_nonneg by lia.
    apply Z.leb_gt. change (2 ^ 3) with 8. lia. }
  set (e := Z.max (ilog2 (a * 5) b - 52) (-1074)).
  assert (He : -1074 <= e <= -50) by lia.
  rewrite (Z.max_r 0 (- e)), (Z.max_l 0 e), Z.pow_0_r, !Z.mul_1_r by lia.
  set (s := 2 ^ (- e)).
  assert (Hs : 0 < s) by (apply Z.pow_pos_nonneg; lia).
  set (k := roundEvenDiv (a * 5 * s) b).
  assert (Hk : k < 5 * s).
  { destruct (Z.lt_ge_cases (a * 5) (4 * b)) as [Hlt|Hge].
    - pose proof (roundEvenDiv_le (a * 5 * s) b) as Hle. fold k in Hle.
      assert (a * 5 * s / b < 4 * s).
      { apply Z.div_lt_upper_bound; [lia|]. nia. }
      lia.
    - assert (Hil2 : 2 <= ilog2 (a * 5) b).
      { apply ilog2_ge; [lia..|]. rewrite pow2_le_nonneg by lia.
        apply Z.leb_le. change (2 ^ 2) with 4. lia. }
      assert (Ee : e = -50) by lia.
      assert (Es : s = 2 ^ 50) by (unfold s; by rewrite Ee).
      pose proof (Z.div_mod (a * 5 * s) b ltac:(lia)) as Hdm.
      pose proof (Z.mod_pos_bound (a * 5 * s) b ltac:(lia)) as Hrem.
      set (q := a * 5 * s / b) in *. set (m := (a * 5 * s) mod b) in *.
      assert (Hq : q <= 5 * s - 1) by (rewrite Es in *; nia).
      destruct (Z.eq_dec q (5 * s - 1)) as [Eq|Hne].
      + assert (Hm : 2 * m < b) by (rewrite Es in *; nia).
        unfold k. rewrite roundEvenDiv_down by exact Hm. fold q. lia.
      + pose proof (roundEvenDiv_le (a * 5 * s) b) as Hle.
        fold k q in Hle. lia. }
  assert (Hdiv : k / s < 5) by (apply Z.div_lt_upper_bound; lia).
  lia.
Qed.

End JSFacts.

(** ** Facts on the timer queue *)

Module TimersFacts.
Import Timers.
Section Queue.
Context {A : Type}.

Lemma schedule_length (deadline : Z) (cb : A) (q : list (Z * A)) :
  length (schedule deadline cb q) = S (length q).
Proof.
  induction q as [|[d c] q IH]; simpl; [done|].
  destruct (d <=? deadline); simpl; [by rewrite IH|done].
Qed.

Lemma schedule_Permutation (deadline : Z) (cb : A) (q : list (Z * A)) :
  schedule deadline cb q ≡ₚ (deadline, cb) :: q.
Proof.
  induction q as [|[d c] q IH]; simpl; [done|].
  destruct (d <=? deadline); [|done].
  rewrite IH. apply Permutation_swap.
Qed.

Lemma schedule_nil (deadline : Z) (cb : A) :
  schedule deadline cb [] = [(deadline, cb)].
Proof. reflexivity. Qed.

Lemma due_Some (now : Z) (q : list (Z * A)) (c : A) (q' : list (Z * A)) :
  due now q = Some (c, q') <-> exists d, q = (d, c) :: q' /\ d <= now.
Proof.
  destruct q as [|[d c0] q0]; simpl.
  - split; [discriminate|]. intros (d & H & _). discriminate.
  - destruct (Z.leb_spec d now) as [Hle|Hgt].
    + split.
      * intros [= -> ->]. eauto.
      * intros (d' & [= -> -> ->] & _). reflexivity.
    + split; [discriminate|]. intros (d' & [= -> -> ->] & Hd). lia.
Qed.
End Queue.
End TimersFacts.

(** ** The canned replies *)

(** For every value [Math.random()] can return, a double in [0, 1), the
    opponent's and the judge's texts are entries of their pools: the
    product with the length, rounded to the nearest double, stays below
    the length. *)
Theorem generated_in_pool (env : Env) :
  validRandom (random env) = true ->
  Moot.generateOpponentResponse env ∈ Moot.opponentResponses /\
  Moot.generateJudgeResponse env ∈ Moot.judgeResponses.
Proof.
  intros Hv. split; apply list_elem_of_In, nth_In;
    exact (JSFacts.randomIndex_5 _ Hv).
Qed.

(** ** The forms *)

(** C4, as stated, fails: with a non-empty e-mail that is not a
    well-formed address and a non-empty password, the browser keeps the
    [submit] event back; [handleSubmit] does not run and nothing
    navigates. *)
Lemma login_malformed_email :
  let st := {| Login.credentials :=
                 {| Login.email := lit "abc"; Login.password := lit "pw" |};
               Login.error := [] |} in
  Login.email (Login.credentials st) <> [] /\
  Login.password (Login.credentials st) <> [] /\
  Login.step st Login.Submit = (st, []) /\
  Router.navigations (snd (Login.step st Login.Submit)) = [].
Proof. repeat split; discriminate. Qed.

(** C4, amended.  When the browser's validation lets the submission
    through (the sanitized e-mail value is empty or a well-formed
    address): with both fields non-empty, submitting leaves the form as it
    is, calls [preventDefault], logs and navigates, once, to the path
    routed to the chat screen; with either field empty it calls
    [preventDefault] only, sets the error message (a non-empty string, so
    it is displayed) and navigates nowhere.  An empty e-mail always passes
    the validation.  When the validation refuses the submission (a
    non-empty e-mail that is not well formed), nothing happens at all: no
    browser call, no error, no navigation. *)
Theorem login_submit (st : Login.State) :
  (Login.submittable st = true ->
   Login.email (Login.credentials st) <> [] ->
   Login.password (Login.credentials st) <> [] ->
   Login.step st Login.Submit =
     (st, [PreventDefault; ConsoleLog (lit "Logging in with:");
           Navigate (lit "/chat")]) /\
   Router.navigations (snd (Login.step st Login.Submit))
     = [Some Router.ChatInterface]) /\
  (Login.submittable st = true ->
   Login.email (Login.credentials st) = [] \/
   Login.password (Login.credentials st) = [] ->
   Login.step st Login.Submit =
     ({| Login.credentials := Login.credentials st;
         Login.error := Login.missingText |}, [PreventDefault]) /\
   truthy Login.missingText = true /\
   Router.navigations (snd (Login.step st Login.Submit)) = []) /\
  (Login.email (Login.credentials st) = [] ->
   Login.submittable st = true) /\
  (Login.submittable st = false ->
   Login.step st Login.Submit = (st, []) /\
   Router.navigations (snd (Login.step st Login.Submit)) = []).
Proof.
  destruct st as [[e p] err]. unfold Login.step.
  repeat apply conj.
  - intros -> He Hp. unfold Login.handleSubmit; simpl in *.
    destruct e; [done|]. destruct p; [done|]. split; reflexivity.
  - intros -> H. unfold Login.handleSubmit; simpl in *.
    destruct H as [-> | ->]; simpl; [done|].
    rewrite orb_true_r. done.
  - simpl. by intros ->.
  - by intros ->.
Qed.

Lemma login_submit_witness :
  Router.navigations (snd (Login.step Sample.loginFilled Login.Submit))
    = [Some Router.ChatInterface] /\
  Login.step Login.mount Login.Submit =
    ({| Login.credentials := Login.credentials Login.mount;
        Login.error := Login.missingText |}, [PreventDefault]) /\
  Login.submittable Login.mount = true /\
  Login.step
    (Login.handleChange Login.Email (lit "abc") Login.mount) Login.Submit
  = (Login.handleChange Login.Email (lit "abc") Login.mount, []).
Proof.
  destruct (login_submit Sample.loginFilled) as (Hok & _).
  destruct (login_submit Login.mount) as (_ & Hempty & Hpass & _).
  destruct (login_submit
              (Login.handleChange Login.Email (lit "abc") Login.mount))
    as (_ & _ & _ & Hbad).
  repeat apply conj.
  - apply Hok; [reflexivity|discriminate|discriminate].
  - apply Hempty; [reflexivity|by left].
  - apply Hpass. reflexivity.
  - apply Hbad. reflexivity.
Defined.

(** C5, as stated, fails: with the email left empty and two non-empty,
    different passwords, the form shows the "fill in all fields" message,
    not the "do not match" one. *)
Lemma signup_mismatch_empty_email :
  let st := {| SignUp.formData :=
                 {| SignUp.email := [];
                    SignUp.password := lit "a";
                    SignUp.confirmPassword := lit "b" |};
               SignUp.error := [] |} in
  SignUp.password (SignUp.formData st) <> [] /\
  SignUp.confirmPassword (SignUp.formData st) <> [] /\
  SignUp.password (SignUp.formData st)
    <> SignUp.confirmPassword (SignUp.formData st) /\
  SignUp.error (fst (SignUp.handleSubmit st)) = SignUp.missingText /\
  SignUp.error (fst (SignUp.handleSubmit st)) <> SignUp.mismatchText.
Proof. repeat split; discriminate. Qed.

(** With a non-empty e-mail that is not a well-formed address, the
    browser keeps the [submit] event of the sign-up form back, whatever
    the passwords are: [handleSubmit] does not run. *)
Lemma signup_malformed_email :
  let st := {| SignUp.formData :=
                 {| SignUp.email := lit "x";
                    SignUp.password := lit "a";
                    SignUp.confirmPassword := lit "a" |};
               SignUp.error := [] |} in
  SignUp.step st SignUp.Submit = (st, []).
Proof. reflexivity. Qed.

(** C5, amended.  When the browser's validation lets the submission
    through (the sanitized e-mail value is empty or a well-formed
    address): with the three fields non-empty and the two passwords
    different, submitting the sign-up form calls [preventDefault] only,
    shows the "do not match" message and navigates nowhere; with a field
    empty it shows the "fill in all fields" message instead; with the
    three fields non-empty and the passwords equal it leaves the form as
    it is, calls [preventDefault], logs and navigates, once, to the path
    routed to the chat screen, whatever the values are.  Whenever the two
    passwords differ it navigates nowhere.  When the validation refuses
    the submission, nothing happens at all. *)
Theorem signup_submit (st : SignUp.State) :
  let d := SignUp.formData st in
  (SignUp.submittable st = true ->
   SignUp.email d <> [] -> SignUp.password d <> [] ->
   SignUp.confirmPassword d <> [] ->
   SignUp.password d <> SignUp.confirmPassword d ->
   SignUp.step st SignUp.Submit =
     ({| SignUp.formData := d; SignUp.error := SignUp.mismatchText |},
      [PreventDefault])) /\
  (SignUp.submittable st = true ->
   SignUp.email d = [] \/ SignUp.password d = [] \/
   SignUp.confirmPassword d = [] ->
   SignUp.step st SignUp.Submit =
     ({| SignUp.formData := d; SignUp.error := SignUp.missingText |},
      [PreventDefault])) /\
  (SignUp.password d <> SignUp.confirmPassword d ->
   Router.navigations (snd (SignUp.step st SignUp.Submit)) = []) /\
  (SignUp.submittable st = true ->
   SignUp.email d <> [] -> SignUp.password d <> [] ->
   SignUp.confirmPassword d <> [] ->
   SignUp.password d = SignUp.confirmPassword d ->
   SignUp.step st SignUp.Submit =
     (st, [PreventDefault; ConsoleLog (lit "User Registered:");
           Navigate (lit "/chat")]) /\
   Router.navigations (snd (SignUp.step st SignUp.Submit))
     = [Some Router.ChatInterface]) /\
  (SignUp.submittable st = false ->
   SignUp.step st SignUp.Submit = (st, []) /\
   Router.navigations (snd (SignUp.step st SignUp.Submit)) = []).
Proof.
  destruct st as [[e p c] err]. unfold SignUp.step. cbv zeta.
  repeat apply conj.
  - intros -> He Hp Hc Hne. unfold SignUp.handleSubmit; simpl in *.
    destruct e; [done|]. destruct p; [done|]. destruct c; [done|]. simpl.
    by rewrite bool_decide_eq_false_2 by done.
  - intros -> H. unfold SignUp.handleSubmit; simpl in *.
    destruct H as [-> | [-> | ->]]; simpl; [done| |].
    + by rewrite orb_true_r.
    + by rewrite !orb_true_r.
  - intros Hne. destruct (SignUp.submittable _); [|done].
    unfold SignUp.handleSubmit; simpl in *.
    destruct (negb (truthy e) || negb (truthy p) || negb (truthy c));
      [reflexivity|].
    by rewrite bool_decide_eq_false_2 by done.
  - intros -> He Hp Hc Heq. unfold SignUp.handleSubmit; simpl in *.
    destruct e; [done|]. destruct p; [done|]. destruct c; [done|]. simpl.
    rewrite bool_decide_eq_true_2 by done. split; reflexivity.
  - by intros ->.
Qed.

Lemma signup_submit_witness :
  let filled e p c :=
    {| SignUp.formData :=
         {| SignUp.email := lit e; SignUp.password := lit p;
            SignUp.confirmPassword := lit c |};
       SignUp.error := [] |} in
  SignUp.step (filled "a@b.in" "a" "b") SignUp.Submit =
    ({| SignUp.formData := SignUp.formData (filled "a@b.in" "a" "b");
        SignUp.error := SignUp.mismatchText |}, [PreventDefault]) /\
  SignUp.step SignUp.mount SignUp.Submit =
    ({| SignUp.formData := SignUp.formData SignUp.mount;
        SignUp.error := SignUp.missingText |}, [PreventDefault]) /\
  Router.navigations
    (snd (SignUp.step (filled "a@b.in" "a" "b") SignUp.Submit)) = [] /\
  Router.navigations
    (snd (SignUp.step (filled "a@b.in" "a" "a") SignUp.Submit))
    = [Some Router.ChatInterface] /\
  SignUp.step (filled "x" "a" "a") SignUp.Submit = (filled "x" "a" "a", []).
Proof.
  intros filled.
  destruct (signup_submit (filled "a@b.in" "a" "b"))
    as (Hmis & _ & Hnonav & _).
  destruct (signup_submit SignUp.mount) as (_ & Hempty & _).
  destruct (signup_submit (filled "a@b.in" "a" "a")) as (_ & _ & _ & Hok & _).
  destruct (signup_submit (filled "x" "a" "a")) as (_ & _ & _ & _ & Hbad).
  repeat apply conj.
  - apply Hmis; (reflexivity || discriminate).
  - apply Hempty; [reflexivity|by left].
  - apply Hnonav. discriminate.
  - apply Hok; (reflexivity || discriminate).
  - apply Hbad. reflexivity.
Defined.

(** ** Sessions *)

(** C2, as stated, fails: right after mounting, the message list of either
    screen is not empty. *)
Lemma mount_not_empty :
  Chat.messages (Chat.mount (Sample.at_ms 0)) <> [] /\
  Moot.messages Moot.mount <> [].
Proof. split; discriminate. Qed.

(** C2, amended.  Right after mounting, the message list of either screen
    holds exactly one message, with id 1 and put there by the screen itself
    (the assistant's welcome on the chat screen, the judge's opening on the
    moot-court screen); it holds no message of the user, the input is
    empty, the pending flag is off and no timer is pending. *)
Theorem mount_seeded (env : Env) :
  (id <$> Chat.messages (Chat.mount env) = [1] /\
   sender <$> Chat.messages (Chat.mount env) = [bot] /\
   text <$> Chat.messages (Chat.mount env) = [Chat.welcomeText] /\
   Chat.input (Chat.mount env) = [] /\
   Chat.isTyping (Chat.mount env) = false /\
   Chat.timers (Chat.mount env) = []) /\
  (id <$> Moot.messages Moot.mount = [1] /\
   sender <$> Moot.messages Moot.mount = [judge] /\
   text <$> Moot.messages Moot.mount = [Moot.openingText] /\
   Moot.inputText Moot.mount = [] /\
   Moot.isSimulating Moot.mount = false /\
   Moot.timers Moot.mount = []).
Proof. repeat split. Qed.

(** C6.  Submitting an empty or white-space-only input changes nothing on
    either screen: the state (message list, flag, pending timers) is the
    same, and the handler's only browser call is [preventDefault], so no
    timer is started. *)
Theorem blank_submit_ignored (env : Env) (cst : Chat.State)
    (mst : Moot.State) :
  (blank (Chat.input cst) = true ->
   Chat.step env cst Chat.Submit = Some (cst, [PreventDefault])) /\
  (blank (Moot.inputText mst) = true ->
   Moot.handleUserSubmit env mst = (mst, [PreventDefault]) /\
   forall r, Moot.step env mst Moot.Submit = Some r ->
             r = (mst, [PreventDefault])).
Proof.
  split.
  - intros Hb. simpl. unfold Chat.handleSend.
    rewrite JSFacts.truthy_trim, Hb. reflexivity.
  - intros Hb.
    assert (H : Moot.handleUserSubmit env mst = (mst, [PreventDefault])).
    { unfold Moot.handleUserSubmit.
      rewrite JSFacts.truthy_trim, Hb. reflexivity. }
    split; [exact H|].
    intros r. simpl.
    destruct (Moot.inputDisabled mst && Moot.buttonDisabled mst);
      [discriminate|].
    rewrite H. congruence.
Qed.

Lemma blank_submit_ignored_witness :
  Chat.step (Sample.at_ms 0)
    {| Chat.messages := []; Chat.input := lit "  "; Chat.isTyping := false;
       Chat.timers := [] |} Chat.Submit
  = Some ({| Chat.messages := []; Chat.input := lit "  ";
             Chat.isTyping := false; Chat.timers := [] |},
          [PreventDefault]) /\
  Moot.handleUserSubmit (Sample.at_ms 0) Moot.mount
  = (Moot.mount, [PreventDefault]).
Proof.
  split.
  - apply (proj1 (blank_submit_ignored (Sample.at_ms 0)
       {| Chat.messages := []; Chat.input := lit "  ";
          Chat.isTyping := false; Chat.timers := [] |} Moot.mount)).
    reflexivity.
  - exact (proj1 (proj2 (blank_submit_ignored (Sample.at_ms 0)
       (Chat.mount (Sample.at_ms 0)) Moot.mount) eq_refl)).
Defined.

(** C10.  A change event of the file input that delivers no file leaves
    the chat screen as it is: same message list, same typing flag, same
    pending timers, and no browser call at all. *)
Theorem no_file_no_change (env : Env) (st : Chat.State) :
  Chat.handleImageUpload env [] st = (st, []) /\
  Chat.step env st (Chat.FileChange []) = Some (st, []).
Proof. split; reflexivity. Qed.

(** ** Timer callbacks *)

(** The event loop runs the callback at the head of the queue, and only
    once its deadline has passed. *)
Lemma chat_timeout_due (env : Env) (st : Chat.State) (d : Z)
    (cb : Chat.Timer) (rest : list (Z * Chat.Timer)) :
  Chat.timers st = (d, cb) :: rest ->
  Chat.step env st Chat.Timeout =
    if d <=? now env then Some (Chat.runTimer env cb rest st, []) else None.
Proof. intros H. simpl. rewrite H. simpl. by destruct (d <=? now env). Qed.

Lemma moot_timeout_due (env : Env) (st : Moot.State) (d : Z)
    (cb : Moot.Timer) (rest : list (Z * Moot.Timer)) :
  Moot.timers st = (d, cb) :: rest ->
  Moot.step env st Moot.Timeout =
    if d <=? now env then Some (Moot.runTimer env cb rest st) else None.
Proof. intros H. simpl. rewrite H. simpl. by destruct (d <=? now env). Qed.

Lemma chat_timeout_idle (env : Env) (st : Chat.State) :
  Chat.timers st = [] -> Chat.step env st Chat.Timeout = None.
Proof. intros H. simpl. by rewrite H. Qed.

Lemma moot_timeout_idle (env : Env) (st : Moot.State) :
  Moot.timers st = [] -> Moot.step env st Moot.Timeout = None.
Proof. intros H. simpl. by rewrite H. Qed.

(** ** Uploads *)

(** C7.  A change event of the file input that delivers a file appends
    exactly one message, of the user, carrying the object URL as its
    attachment, and adds exactly one callback, the analysis reply, due 2000
    ms later; the handler's browser calls are [URL.createObjectURL] and
    [setTimeout], none of them a network request.  An analysis callback at
    the head of the queue cannot run before its deadline; when it runs it
    appends exactly one message, of the bot and with the canned analysis
    text, schedules nothing and makes no browser call. *)
Theorem upload_then_analysis (env env' : Env) (file : File)
    (files : list File) (st st' : Chat.State) (d : Z)
    (rest : list (Z * Chat.Timer)) :
  (exists u,
     Chat.step env st (Chat.FileChange (file :: files)) =
       Some ({| Chat.messages := Chat.messages st ++ [u];
                Chat.input := Chat.input st;
                Chat.isTyping := true;
                Chat.timers :=
                  Timers.schedule (now env + 2000) Chat.AnalysisResponse
                    (Chat.timers st) |},
             [CreateObjectURL file; SetTimeout 2000]) /\
     sender u = user /\ image u = Some (objectURL env) /\
     Timers.schedule (now env + 2000) Chat.AnalysisResponse (Chat.timers st)
       ≡ₚ (now env + 2000, Chat.AnalysisResponse) :: Chat.timers st /\
     existsb isFetch [CreateObjectURL file; SetTimeout 2000] = false) /\
  (Chat.timers st' = (d, Chat.AnalysisResponse) :: rest ->
   (now env' < d -> Chat.step env' st' Chat.Timeout = None) /\
   (d <= now env' ->
    exists r,
      Chat.step env' st' Chat.Timeout =
        Some ({| Chat.messages := Chat.messages st' ++ [r];
                 Chat.input := Chat.input st';
                 Chat.isTyping := false;
                 Chat.timers := rest |}, []) /\
      sender r = bot /\ text r = Chat.analysisText /\ image r = None)).
Proof.
  split.
  - eexists. split; [reflexivity|]. simpl.
    repeat split. apply TimersFacts.schedule_Permutation.
  - intros Hq. rewrite (chat_timeout_due _ _ _ _ _ Hq). split.
    + intros Hlt. destruct (Z.leb_spec d (now env')); [lia|done].
    + intros Hle. destruct (Z.leb_spec d (now env')); [|lia].
      eexists. split; [reflexivity|]. repeat split.
Qed.

Lemma upload_then_analysis_witness :
  Chat.step (Sample.at_ms 2999) Sample.chatUploaded Chat.Timeout = None /\
  exists r,
    Chat.step (Sample.at_ms 3000) Sample.chatUploaded Chat.Timeout =
      Some ({| Chat.messages := Chat.messages Sample.chatUploaded ++ [r];
               Chat.input := Chat.input Sample.chatUploaded;
               Chat.isTyping := false;
               Chat.timers := [] |}, []) /\
    sender r = bot /\ text r = Chat.analysisText /\ image r = None.
Proof.
  split.
  - apply (proj1 (proj2 (upload_then_analysis (Sample.at_ms 1000)
      (Sample.at_ms 2999) Sample.notice [] (Chat.mount (Sample.at_ms 0))
      Sample.chatUploaded 1762000003000 []) eq_refl)).
    simpl. lia.
  - apply (proj2 (proj2 (upload_then_analysis (Sample.at_ms 1000)
      (Sample.at_ms 3000) Sample.notice [] (Chat.mount (Sample.at_ms 0))
      Sample.chatUploaded 1762000003000 []) eq_refl)).
    simpl. lia.
Defined.

(** ** Submissions *)

(** C1, as stated, fails on the moot-court screen: one argument presented
    there is answered by two replies, the opponent's and then the judge's,
    after which nothing is pending. *)
Lemma moot_two_replies :
  match Moot.run Moot.mount Sample.oneArgument with
  | Some st =>
      sender <$> Moot.messages st = [judge; user; opponent; judge] /\
      Moot.timers st = [] /\
      ~ oneReply (Moot.messages Moot.mount) (Moot.messages st) (lit "x")
  | None => False
  end.
Proof.
  simpl. repeat split.
  intros (u & r & H & _). apply (f_equal length) in H. discriminate.
Qed.

(** C1, amended.  For an input that is not blank, submitting appends
    exactly one message, of the user and with the input as its text, and
    adds exactly one callback, due 1500 ms later.  No callback runs before
    its deadline.  On the chat screen that callback appends exactly one
    message, of the bot, and schedules nothing.  On the moot-court screen
    it appends exactly one message, of the opponent, and schedules a second
    callback, due 2000 ms later, which appends exactly one message, of the
    judge, schedules nothing and clears the flag: two replies for one
    submission. *)
Theorem submit_then_reply (env env' : Env) (cst cst' : Chat.State)
    (mst mst' : Moot.State) (d botId : Z) (crest : list (Z * Chat.Timer))
    (mrest : list (Z * Moot.Timer)) :
  (blank (Chat.input cst) = false ->
   exists u,
     Chat.step env cst Chat.Submit =
       Some ({| Chat.messages := Chat.messages cst ++ [u];
                Chat.input := [];
                Chat.isTyping := true;
                Chat.timers :=
                  Timers.schedule (now env + 1500)
                    (Chat.BotResponse
                       (Z.of_nat (length (Chat.messages cst)) + 2))
                    (Chat.timers cst) |},
             [PreventDefault; SetTimeout 1500]) /\
     sender u = user /\ text u = Chat.input cst) /\
  (Chat.timers cst' = (d, Chat.BotResponse botId) :: crest ->
   (now env' < d -> Chat.step env' cst' Chat.Timeout = None) /\
   (d <= now env' ->
    exists r,
      Chat.step env' cst' Chat.Timeout =
        Some ({| Chat.messages := Chat.messages cst' ++ [r];
                 Chat.input := Chat.input cst';
                 Chat.isTyping := false;
                 Chat.timers := crest |}, []) /\
      sender r = bot /\ text r = Chat.placeholderText)) /\
  (blank (Moot.inputText mst) = false -> Moot.isSimulating mst = false ->
   exists u,
     Moot.step env mst Moot.Submit =
       Some ({| Moot.messages := Moot.messages mst ++ [u];
                Moot.inputText := [];
                Moot.isSimulating := true;
                Moot.timers :=
                  Timers.schedule (now env + 1500) Moot.OpponentTurn
                    (Moot.timers mst) |},
             [PreventDefault; SetTimeout 1500]) /\
     sender u = user /\ text u = Moot.inputText mst) /\
  (Moot.timers mst' = (d, Moot.OpponentTurn) :: mrest ->
   (now env' < d -> Moot.step env' mst' Moot.Timeout = None) /\
   (d <= now env' ->
    exists r,
      Moot.step env' mst' Moot.Timeout =
        Some ({| Moot.messages := Moot.messages mst' ++ [r];
                 Moot.inputText := Moot.inputText mst';
                 Moot.isSimulating := Moot.isSimulating mst';
                 Moot.timers :=
                   Timers.schedule (now env' + 2000) Moot.JudgeTurn mrest |},
              [SetTimeout 2000]) /\
      sender r = opponent)) /\
  (Moot.timers mst' = (d, Moot.JudgeTurn) :: mrest ->
   (now env' < d -> Moot.step env' mst' Moot.Timeout = None) /\
   (d <= now env' ->
    exists r,
      Moot.step env' mst' Moot.Timeout =
        Some ({| Moot.messages := Moot.messages mst' ++ [r];
                 Moot.inputText := Moot.inputText mst';
                 Moot.isSimulating := false;
                 Moot.timers := mrest |}, []) /\
      sender r = judge)).
Proof.
  repeat apply conj.
  - intros Hb. simpl. unfold Chat.handleSend.
    rewrite JSFacts.truthy_trim, Hb. simpl.
    eexists. split; [reflexivity|]. split; reflexivity.
  - intros Hq. rewrite (chat_timeout_due _ _ _ _ _ Hq).
    destruct (Z.leb_spec d (now env')); split; try lia; try done.
    intros _. eexists. split; [reflexivity|]. split; reflexivity.
  - intros Hb Hs. simpl. unfold Moot.inputDisabled, Moot.buttonDisabled.
    rewrite Hs. simpl. unfold Moot.handleUserSubmit.
    rewrite JSFacts.truthy_trim, Hb. simpl.
    eexists. split; [reflexivity|]. split; reflexivity.
  - intros Hq. rewrite (moot_timeout_due _ _ _ _ _ Hq).
    destruct (Z.leb_spec d (now env')); split; try lia; try done.
    intros _. eexists. split; reflexivity.
  - intros Hq. rewrite (moot_timeout_due _ _ _ _ _ Hq).
    destruct (Z.leb_spec d (now env')); split; try lia; try done.
    intros _. eexists. split; reflexivity.
Qed.

Lemma submit_then_reply_witness :
  (exists u,
     Chat.step (Sample.at_ms 1000) Sample.chatTyped Chat.Submit =
       Some ({| Chat.messages := Chat.messages Sample.chatTyped ++ [u];
                Chat.input := [];
                Chat.isTyping := true;
                Chat.timers := [(1762000002500, Chat.BotResponse 3)] |},
             [PreventDefault; SetTimeout 1500]) /\
     sender u = user /\ text u = lit "a") /\
  (exists r,
     Chat.step (Sample.at_ms 2500) Sample.chatSent Chat.Timeout =
       Some ({| Chat.messages := Chat.messages Sample.chatSent ++ [r];
                Chat.input := [];
                Chat.isTyping := false;
                Chat.timers := [] |}, []) /\
     sender r = bot /\ text r = Chat.placeholderText) /\
  (exists u,
     Moot.step (Sample.at_ms 1000) Sample.mootTyped Moot.Submit =
       Some ({| Moot.messages := Moot.messages Sample.mootTyped ++ [u];
                Moot.inputText := [];
                Moot.isSimulating := true;
                Moot.timers := [(1762000002500, Moot.OpponentTurn)] |},
             [PreventDefault; SetTimeout 1500]) /\
     sender u = user /\ text u = lit "x") /\
  Moot.step (Sample.at_ms 2499) Sample.mootSent Moot.Timeout = None /\
  (exists r,
     Moot.step (Sample.at_ms 2500) Sample.mootSent Moot.Timeout =
       Some ({| Moot.messages := Moot.messages Sample.mootSent ++ [r];
                Moot.inputText := [];
                Moot.isSimulating := true;
                Moot.timers := [(1762000004500, Moot.JudgeTurn)] |},
             [SetTimeout 2000]) /\
     sender r = opponent) /\
  (exists r,
     Moot.step (Sample.at_ms 4500) Sample.mootOpposed Moot.Timeout =
       Some ({| Moot.messages := Moot.messages Sample.mootOpposed ++ [r];
                Moot.inputText := [];
                Moot.isSimulating := false;
                Moot.timers := [] |}, []) /\
     sender r = judge).
Proof.
  destruct (submit_then_reply (Sample.at_ms 1000) (Sample.at_ms 2500)
    Sample.chatTyped Sample.chatSent Sample.mootTyped Sample.mootSent
    1762000002500 3 [] []) as (Hcs & Hcr & Hms & Hmo & _).
  destruct (submit_then_reply (Sample.at_ms 1000) (Sample.at_ms 2499)
    Sample.chatTyped Sample.chatSent Sample.mootTyped Sample.mootSent
    1762000002500 3 [] []) as (_ & _ & _ & Hearly & _).
  destruct (submit_then_reply (Sample.at_ms 1000) (Sample.at_ms 4500)
    Sample.chatTyped Sample.chatSent Sample.mootTyped Sample.mootOpposed
    1762000004500 3 [] []) as (_ & _ & _ & _ & Hmj).
  repeat apply conj.
  - exact (Hcs eq_refl).
  - apply (proj2 (Hcr eq_refl)). simpl. lia.
  - exact (Hms eq_refl eq_refl).
  - apply (proj1 (Hearly eq_refl)). simpl. lia.
  - apply (proj2 (Hmo eq_refl)). simpl. lia.
  - apply (proj2 (Hmj eq_refl)). simpl. lia.
Defined.

(** ** Runs and reachable states *)

Lemma chat_run_reachable (evs : list (Env * Chat.Event))
    (st st' : Chat.State) :
  Chat.reachable st -> Chat.run st evs = Some st' -> Chat.reachable st'.
Proof.
  revert st. induction evs as [|[env ev] evs IH]; intros st Hst; simpl.
  - intros [= <-]. exact Hst.
  - destruct (Chat.step env st ev) as [[st1 effs]|] eqn:E; [|discriminate].
    apply IH. eapply Chat.reachable_step; eauto.
Qed.

Lemma moot_run_reachable (evs : list (Env * Moot.Event))
    (st st' : Moot.State) :
  Moot.reachable st -> Moot.run st evs = Some st' -> Moot.reachable st'.
Proof.
  revert st. induction evs as [|[env ev] evs IH]; intros st Hst; simpl.
  - intros [= <-]. exact Hst.
  - destruct (Moot.step env st ev) as [[st1 effs]|] eqn:E; [|discriminate].
    apply IH. eapply Moot.reachable_step; eauto.
Qed.

(** ** Message ids *)

(** C3 fails on the chat screen.  A query, a second query 400 ms later and
    the reply to the first one, 1500 ms after it, leave four messages with
    ids 1, 2, 3 and 3: the reply's id was fixed from the length of the list
    when the first query was sent, and the second query took the same
    number in between.  The state is reachable and its ids are not
    distinct. *)
Theorem chat_ids_collide :
  match Chat.run (Chat.mount (Sample.at_ms 0)) Sample.twoQueries with
  | Some st =>
      id <$> Chat.messages st = [1; 2; 3; 3] /\
      sender <$> Chat.messages st = [bot; user; user; bot] /\
      ~ NoDup (id <$> Chat.messages st) /\
      Chat.reachable st
  | None => False
  end.
Proof.
  destruct (Chat.run (Chat.mount (Sample.at_ms 0)) Sample.twoQueries)
    as [st|] eqn:E; [|vm_compute in E; discriminate].
  assert (Hreach : Chat.reachable st).
  { eapply chat_run_reachable; [apply Chat.reachable_mount | exact E]. }
  vm_compute in E. injection E as <-.
  repeat apply conj; try reflexivity; [|exact Hreach].
  simpl. intros H. apply NoDup_cons in H as [_ H].
  apply NoDup_cons in H as [_ H]. apply NoDup_cons in H as [H _].
  apply H. left.
Qed.

(** ** The message list only grows at its end *)

Lemma chat_step_appends (env : Env) (st st' : Chat.State) (ev : Chat.Event)
    (effs : list Effect) :
  Chat.step env st ev = Some (st', effs) ->
  Chat.messages st' = Chat.messages st \/
  exists m, Chat.messages st' = Chat.messages st ++ [m].
Proof.
  destruct ev as [value| |files|]; simpl.
  - intros [= <- _]. by left.
  - unfold Chat.handleSend.
    destruct (negb (truthy (trim (Chat.input st)))); intros [= <- _];
      [by left|right; eauto].
  - unfold Chat.handleImageUpload.
    destruct (head files); intros [= <- _]; [right; eauto|by left].
  - destruct (Timers.due (now env) (Chat.timers st)) as [[cb rest]|];
      [|discriminate].
    intros [= <- _]. right. simpl. eauto.
Qed.

Lemma moot_step_appends (env : Env) (st st' : Moot.State) (ev : Moot.Event)
    (effs : list Effect) :
  Moot.step env st ev = Some (st', effs) ->
  Moot.messages st' = Moot.messages st \/
  exists m, Moot.messages st' = Moot.messages st ++ [m].
Proof.
  destruct ev as [value| |]; simpl.
  - destruct (Moot.inputDisabled st); [discriminate|].
    intros [= <- _]. by left.
  - destruct (Moot.inputDisabled st && Moot.buttonDisabled st);
      [discriminate|].
    unfold Moot.handleUserSubmit.
    destruct (negb (truthy (trim (Moot.inputText st)))); intros [= <- _];
      [by left|right; eauto].
  - destruct (Timers.due (now env) (Moot.timers st)) as [[cb rest]|];
      [|discriminate].
    destruct cb; intros [= <- _]; right; simpl; eauto.
Qed.

Lemma chat_run_prefix (evs : list (Env * Chat.Event)) (st st' : Chat.State) :
  Chat.run st evs = Some st' ->
  Chat.messages st `prefix_of` Chat.messages st'.
Proof.
  revert st. induction evs as [|[env ev] evs IH]; intros st; simpl.
  - intros [= <-]. done.
  - destruct (Chat.step env st ev) as [[st1 effs]|] eqn:E; [|discriminate].
    intros Hrun. etrans; [|exact (IH _ Hrun)].
    destruct (chat_step_appends _ _ _ _ _ E) as [-> | [m ->]];
      [done|by apply prefix_app_r].
Qed.

Lemma moot_run_prefix (evs : list (Env * Moot.Event)) (st st' : Moot.State) :
  Moot.run st evs = Some st' ->
  Moot.messages st `prefix_of` Moot.messages st'.
Proof.
  revert st. induction evs as [|[env ev] evs IH]; intros st; simpl.
  - intros [= <-]. done.
  - destruct (Moot.step env st ev) as [[st1 effs]|] eqn:E; [|discriminate].
    intros Hrun. etrans; [|exact (IH _ Hrun)].
    destruct (moot_step_appends _ _ _ _ _ E) as [-> | [m ->]];
      [done|by apply prefix_app_r].
Qed.

(** C8.  On either screen every step leaves the message list as it is or
    appends one message at its end.  Hence, over any run from any state,
    the list at the start is a prefix of the list at the end: every
    message is still there, at the same position and with the same
    content. *)
Theorem append_only :
  (forall env st ev st' effs,
     Chat.step env st ev = Some (st', effs) ->
     Chat.messages st' = Chat.messages st \/
     exists m, Chat.messages st' = Chat.messages st ++ [m]) /\
  (forall env st ev st' effs,
     Moot.step env st ev = Some (st', effs) ->
     Moot.messages st' = Moot.messages st \/
     exists m, Moot.messages st' = Moot.messages st ++ [m]) /\
  (forall st evs st',
     Chat.run st evs = Some st' ->
     Chat.messages st `prefix_of` Chat.messages st' /\
     forall i m, Chat.messages st !! i = Some m ->
                 Chat.messages st' !! i = Some m) /\
  (forall st evs st',
     Moot.run st evs = Some st' ->
     Moot.messages st `prefix_of` Moot.messages st' /\
     forall i m, Moot.messages st !! i = Some m ->
                 Moot.messages st' !! i = Some m).
Proof.
  repeat apply conj.
  - intros env st ev st' effs. apply chat_step_appends.
  - intros env st ev st' effs. apply moot_step_appends.
  - intros st evs st' Hrun.
    pose proof (chat_run_prefix _ _ _ Hrun) as Hp. split; [exact Hp|].
    intros i m Hi. eapply prefix_lookup_Some; eauto.
  - intros st evs st' Hrun.
    pose proof (moot_run_prefix _ _ _ Hrun) as Hp. split; [exact Hp|].
    intros i m Hi. eapply prefix_lookup_Some; eauto.
Qed.

Lemma append_only_witness :
  (Chat.messages Sample.chatSent = Chat.messages Sample.chatTyped \/
   exists m,
     Chat.messages Sample.chatSent = Chat.messages Sample.chatTyped ++ [m]) /\
  (Moot.messages Sample.mootSent = Moot.messages Sample.mootTyped \/
   exists m,
     Moot.messages Sample.mootSent = Moot.messages Sample.mootTyped ++ [m]) /\
  Chat.messages (Chat.mount (Sample.at_ms 0))
    `prefix_of` Chat.messages Sample.chatSent /\
  Moot.messages Moot.mount `prefix_of` Moot.messages Sample.mootOpposed.
Proof.
  destruct append_only as (Hc & Hm & Hcr & Hmr).
  repeat apply conj.
  - apply (Hc (Sample.at_ms 1000) Sample.chatTyped Chat.Submit
             Sample.chatSent [PreventDefault; SetTimeout 1500]).
    reflexivity.
  - apply (Hm (Sample.at_ms 1000) Sample.mootTyped Moot.Submit
             Sample.mootSent [PreventDefault; SetTimeout 1500]).
    reflexivity.
  - apply (Hcr (Chat.mount (Sample.at_ms 0)) (take 2 Sample.twoQueries)
             Sample.chatSent).
    reflexivity.
  - apply (Hmr Moot.mount (take 3 Sample.oneArgument) Sample.mootOpposed).
    reflexivity.
Defined.

(** ** One reply sequence at a time on the moot-court screen *)

Lemma moot_reachable_consistent (st : Moot.State) :
  Moot.reachable st -> Moot.consistent st.
Proof.
  induction 1 as [|env st ev st' effs Hr IH Hstep]; [reflexivity|].
  unfold Moot.consistent in IH.
  destruct ev as [value| |]; simpl in Hstep.
  - destruct (Moot.inputDisabled st); [discriminate|].
    injection Hstep as <- _. exact IH.
  - unfold Moot.inputDisabled, Moot.buttonDisabled in Hstep.
    destruct (Moot.isSimulating st) eqn:Hs; [discriminate|].
    simpl in Hstep. unfold Moot.handleUserSubmit in Hstep.
    destruct (negb (truthy (trim (Moot.inputText st)))).
    + injection Hstep as <- _. unfold Moot.consistent. rewrite Hs. exact IH.
    + injection Hstep as <- _.
      destruct (Moot.timers st) as [|[d [|]] [|]] eqn:Hq;
        try (destruct IH; congruence); try done.
      unfold Moot.consistent; simpl.
      split; [done|]. by rewrite last_snoc.
  - destruct (Moot.timers st) as [|[d cb] [|]] eqn:Hq; simpl in Hstep;
      [discriminate| |destruct cb; done].
    destruct (d <=? now env); [|discriminate].
    destruct cb; injection Hstep as <- _; unfold Moot.consistent; simpl.
    + split; [apply IH|]. by rewrite last_snoc.
    + reflexivity.
Qed.

(** C9.  In every reachable state of the moot-court screen at most one
    callback is pending, and one is pending exactly while the flag is on.
    While the flag is on, the argument input and the Present button are
    disabled, so the only step the screen can take is the pending callback:
    either the outer one, which appends the opponent's reply and leaves the
    inner one pending with the flag still on, or the inner one, which comes
    after the opponent's reply, appends the judge's reply and clears the
    flag with nothing left pending. *)
Theorem moot_one_sequence (st : Moot.State) (Hr : Moot.reachable st) :
  (length (Moot.timers st) <= 1)%nat /\
  (Moot.isSimulating st = false <-> Moot.timers st = []) /\
  (Moot.isSimulating st = true ->
   Moot.inputDisabled st = true /\ Moot.buttonDisabled st = true /\
   (forall env value, Moot.step env st (Moot.Change value) = None) /\
   (forall env, Moot.step env st Moot.Submit = None) /\
   (forall env ev st' effs,
      Moot.step env st ev = Some (st', effs) ->
      ev = Moot.Timeout /\
      ((exists d o d',
          Moot.timers st = [(d, Moot.OpponentTurn)] /\
          Moot.messages st' = Moot.messages st ++ [o] /\
          sender o = opponent /\
          Moot.isSimulating st' = true /\
          Moot.timers st' = [(d', Moot.JudgeTurn)]) \/
       (exists d j,
          Moot.timers st = [(d, Moot.JudgeTurn)] /\
          sender <$> last (Moot.messages st) = Some opponent /\
          Moot.messages st' = Moot.messages st ++ [j] /\
          sender j = judge /\
          Moot.isSimulating st' = false /\
          Moot.timers st' = [])))).
Proof.
  pose proof (moot_reachable_consistent st Hr) as Hc.
  unfold Moot.consistent in Hc.
  split; [|split; [split|]].
  - destruct (Moot.timers st) as [|[d cb] [|]]; simpl; try lia.
    destruct cb; done.
  - intros Hs. destruct (Moot.timers st) as [|[d [|]] [|]];
      try done; destruct Hc; congruence.
  - intros Hq. by rewrite Hq in Hc.
  - intros Hs. unfold Moot.inputDisabled, Moot.buttonDisabled.
    split; [done|]. split; [done|]. split; [|split].
    + intros env value. simpl. unfold Moot.inputDisabled. by rewrite Hs.
    + intros env. simpl. unfold Moot.inputDisabled, Moot.buttonDisabled.
      by rewrite Hs.
    + intros env ev st' effs Hstep.
      destruct ev as [value| |]; simpl in Hstep;
        unfold Moot.inputDisabled, Moot.buttonDisabled in Hstep;
        rewrite ?Hs in Hstep; try discriminate.
      split; [reflexivity|].
      destruct (Moot.timers st) as [|[d cb] [|]] eqn:Hq; simpl in Hstep;
        [discriminate| |destruct cb; done].
      destruct (d <=? now env); [|discriminate].
      destruct cb; injection Hstep as <- _; simpl.
      * left. exists d. eexists. exists (now env + 2000).
        repeat split. apply Hc.
      * right. exists d. eexists. repeat split. apply Hc.
Qed.

Lemma moot_one_sequence_witness :
  Moot.reachable Sample.mootSent /\
  (length (Moot.timers Sample.mootSent) <= 1)%nat /\
  Moot.inputDisabled Sample.mootSent = true /\
  Moot.buttonDisabled Sample.mootSent = true /\
  Moot.step (Sample.at_ms 1100) Sample.mootSent Moot.Submit = None.
Proof.
  assert (Hr : Moot.reachable Sample.mootSent).
  { apply (moot_run_reachable (take 2 Sample.oneArgument) Moot.mount);
      [apply Moot.reachable_mount | reflexivity]. }
  destruct (moot_one_sequence Sample.mootSent Hr) as (Hlen & _ & Hbusy).
  destruct (Hbusy eq_refl) as (Hin & Hbtn & _ & Hsub & _).
  repeat apply conj; [exact Hr|exact Hlen|exact Hin|exact Hbtn|apply Hsub].
Defined.

(** * Further properties of the screens *)

(** ** Submitting twice *)

(** Submitting the form a second time without typing in between does
    nothing more than the first submission did: a submission that was
    accepted has emptied the input, and one that was not has changed
    nothing.  This holds for [handleSend] as for [handleUserSubmit]. *)
Theorem submit_twice (env1 env2 : Env) (cst : Chat.State)
    (mst : Moot.State) :
  Chat.handleSend env2 (fst (Chat.handleSend env1 cst))
    = (fst (Chat.handleSend env1 cst), [PreventDefault]) /\
  Moot.handleUserSubmit env2 (fst (Moot.handleUserSubmit env1 mst))
    = (fst (Moot.handleUserSubmit env1 mst), [PreventDefault]).
Proof.
  split.
  - unfold Chat.handleSend at 2 3.
    destruct (negb (truthy (trim (Chat.input cst)))) eqn:E; simpl.
    + unfold Chat.handleSend. by rewrite E.
    + reflexivity.
  - unfold Moot.handleUserSubmit at 2 3.
    destruct (negb (truthy (trim (Moot.inputText mst)))) eqn:E; simpl.
    + unfold Moot.handleUserSubmit. by rewrite E.
    + reflexivity.
Qed.

(** ** The typing indicator and the replies owed *)

Lemma schedule_not_nil {A : Type} (d : Z) (cb : A) (q : list (Z * A)) :
  Timers.schedule d cb q <> [].
Proof.
  intros H. apply (f_equal length) in H.
  rewrite TimersFacts.schedule_length in H. discriminate.
Qed.

(** In every reachable state of the chat screen, the typing indicator is
    shown only while a reply is pending. *)
Theorem typing_means_pending (st : Chat.State) :
  Chat.reachable st -> Chat.isTyping st = true -> Chat.timers st <> [].
Proof.
  induction 1 as [env|env st ev st' effs Hr IH Hstep]; [discriminate|].
  destruct ev as [value| |files|]; simpl in Hstep.
  - injection Hstep as <- _. exact IH.
  - unfold Chat.handleSend in Hstep.
    destruct (negb (truthy (trim (Chat.input st))));
      injection Hstep as <- _; [exact IH|].
    intros _. apply schedule_not_nil.
  - unfold Chat.handleImageUpload in Hstep.
    destruct (head files); injection Hstep as <- _; [|exact IH].
    intros _. apply schedule_not_nil.
  - destruct (Timers.due (now env) (Chat.timers st)) as [[cb rest]|];
      [|discriminate].
    injection Hstep as <- _. discriminate.
Qed.

Lemma typing_means_pending_witness :
  Chat.isTyping Sample.chatSent = true /\ Chat.timers Sample.chatSent <> [].
Proof.
  split; [reflexivity|].
  apply typing_means_pending; [|reflexivity].
  apply (chat_run_reachable (take 2 Sample.twoQueries)
           (Chat.mount (Sample.at_ms 0)));
    [apply Chat.reachable_mount | reflexivity].
Defined.

Lemma sent_snoc (who : Sender) (l : list Message) (m : Message) :
  sent who (l ++ [m]) =
    (sent who l + if bool_decide (sender m = who) then 1 else 0)%nat.
Proof.
  unfold sent. rewrite filter_app, length_app. f_equal.
  rewrite filter_cons, filter_nil. by case_decide; case_bool_decide.
Qed.

(** In every reachable state of the chat screen, every message of the user
    has been answered or has its reply pending: the bot's messages, the
    welcome apart, and the pending callbacks are together as many as the
    user's messages. *)
Theorem chat_replies_owed (st : Chat.State) :
  Chat.reachable st ->
  (sent bot (Chat.messages st) + length (Chat.timers st)
   = 1 + sent user (Chat.messages st))%nat /\
  (forall m, m ∈ Chat.messages st -> sender m = user \/ sender m = bot).
Proof.
  induction 1 as [env|env st ev st' effs Hr [IH IHs] Hstep].
  { split; [reflexivity|]. intros m Hm. apply list_elem_of_singleton in Hm.
    subst. by right. }
  destruct ev as [value| |files|]; simpl in Hstep.
  - injection Hstep as <- _. by split.
  - unfold Chat.handleSend in Hstep.
    destruct (negb (truthy (trim (Chat.input st))));
      injection Hstep as <- _; [by split|]. simpl.
    rewrite !sent_snoc, TimersFacts.schedule_length. simpl. split; [lia|].
    intros m [Hm|Hm]%elem_of_app; [auto|].
    apply list_elem_of_singleton in Hm. subst. by left.
  - unfold Chat.handleImageUpload in Hstep.
    destruct (head files); injection Hstep as <- _; [|by split]. simpl.
    rewrite !sent_snoc, TimersFacts.schedule_length. simpl. split; [lia|].
    intros m [Hm|Hm]%elem_of_app; [auto|].
    apply list_elem_of_singleton in Hm. subst. by left.
  - destruct (Timers.due (now env) (Chat.timers st)) as [[cb rest]|] eqn:Hd;
      [|discriminate].
    apply TimersFacts.due_Some in Hd as (d & Hq & _).
    injection Hstep as <- _. simpl. rewrite Hq in IH. simpl in IH.
    rewrite !sent_snoc. split.
    + destruct cb; simpl; lia.
    + intros m [Hm|Hm]%elem_of_app; [auto|].
      apply list_elem_of_singleton in Hm. subst. right. by destruct cb.
Qed.

Lemma chat_replies_owed_witness :
  (sent bot (Chat.messages Sample.chatSent)
   + length (Chat.timers Sample.chatSent)
   = 1 + sent user (Chat.messages Sample.chatSent))%nat.
Proof.
  apply chat_replies_owed.
  apply (chat_run_reachable (take 2 Sample.twoQueries)
           (Chat.mount (Sample.at_ms 0)));
    [apply Chat.reachable_mount | reflexivity].
Defined.

(** ** Ids on the chat screen *)

(** In every reachable state of the chat screen, the id of a message is at
    least 1 and at most its position in the list counted from 1; a message
    of the user has exactly its position as id.  The id a pending reply of
    [handleSend] will take is at most the length of the list plus one. *)
Theorem chat_id_bounds (st : Chat.State) :
  Chat.reachable st ->
  (forall i m, Chat.messages st !! i = Some m ->
     1 <= id m <= Z.of_nat i + 1 /\
     (sender m = user -> id m = Z.of_nat i + 1)) /\
  (forall d botId, (d, Chat.BotResponse botId) ∈ Chat.timers st ->
     1 <= botId <= Z.of_nat (length (Chat.messages st)) + 1).
Proof.
  induction 1 as [env|env st ev st' effs Hr [IHm IHt] Hstep].
  { split.
    - intros [|i] m; simpl; [|by rewrite lookup_nil].
      intros [= <-]. simpl. split; [lia|discriminate].
    - intros d b Hin. by apply elem_of_nil in Hin. }
  destruct ev as [value| |files|]; simpl in Hstep.
  - injection Hstep as <- _. by split.
  - unfold Chat.handleSend in Hstep.
    destruct (negb (truthy (trim (Chat.input st))));
      injection Hstep as <- _; [by split|]. simpl. split.
    + intros i m [[_ Hi]|[-> <-]]%lookup_snoc_Some; [by apply IHm|].
      simpl. split; [lia|done].
    + intros d b Hin. rewrite length_app. simpl.
      rewrite TimersFacts.schedule_Permutation in Hin.
      apply elem_of_cons in Hin as [[= _ ->]|Hin]; [lia|].
      apply IHt in Hin. lia.
  - unfold Chat.handleImageUpload in Hstep.
    destruct (head files); injection Hstep as <- _; [|by split]. simpl. split.
    + intros i m [[_ Hi]|[-> <-]]%lookup_snoc_Some; [by apply IHm|].
      simpl. split; [lia|done].
    + intros d b Hin. rewrite length_app. simpl.
      rewrite TimersFacts.schedule_Permutation in Hin.
      apply elem_of_cons in Hin as [[=]|Hin].
      apply IHt in Hin. lia.
  - destruct (Timers.due (now env) (Chat.timers st)) as [[cb rest]|] eqn:Hd;
      [|discriminate].
    apply TimersFacts.due_Some in Hd as (d & Hq & _).
    injection Hstep as <- _. simpl. split.
    + intros i m [[_ Hi]|[-> <-]]%lookup_snoc_Some; [by apply IHm|].
      destruct cb as [b|]; simpl.
      * split; [|discriminate]. apply (IHt d b). rewrite Hq. left.
      * split; [lia|discriminate].
    + intros d' b Hin. rewrite length_app. simpl.
      assert (Hin' : (d', Chat.BotResponse b) ∈ Chat.timers st).
      { rewrite Hq. by right. }
      apply IHt in Hin'. lia.
Qed.

Lemma chat_id_bounds_witness :
  let m := {| id := 2; text := lit "a"; image := None; sender := user;
              timestamp := Some (lit "10:15:00 AM") |} in
  Chat.messages Sample.chatSent !! 1%nat = Some m /\
  1 <= id m <= Z.of_nat 1 + 1 /\
  id m = Z.of_nat 1 + 1.
Proof.
  intros m.
  assert (Hr : Chat.reachable Sample.chatSent).
  { apply (chat_run_reachable (take 2 Sample.twoQueries)
             (Chat.mount (Sample.at_ms 0)));
      [apply Chat.reachable_mount | reflexivity]. }
  destruct (proj1 (chat_id_bounds Sample.chatSent Hr) 1%nat m eq_refl)
    as [Hb Hu].
  split; [reflexivity|]. split; [exact Hb|exact (Hu eq_refl)].
Defined.

Lemma patient_pending (st : Chat.State) :
  Chat.reachablePatient st ->
  id <$> Chat.messages st
    = seqZ 1 (Z.of_nat (length (Chat.messages st))) /\
  match Chat.timers st with
  | [] => True
  | [(_, Chat.BotResponse botId)] =>
      botId = Z.of_nat (length (Chat.messages st)) + 1
  | [(_, Chat.AnalysisResponse)] => True
  | _ => False
  end.
Proof.
  induction 1 as [env|env st ev st' effs Hr [IHm IHt] Hp Hstep];
    [by split|].
  destruct ev as [value| |files|]; simpl in Hstep, Hp.
  - injection Hstep as <- _. by split.
  - apply bool_decide_eq_true in Hp.
    unfold Chat.handleSend in Hstep.
    destruct (negb (truthy (trim (Chat.input st))));
      injection Hstep as <- _; [by split|]. simpl.
    rewrite Hp, fmap_snoc, length_app, IHm. simpl.
    replace (length (Chat.messages st) + 1)%nat
      with (S (length (Chat.messages st))) by lia.
    rewrite seqZ_S. split; [|lia]. simpl. do 2 f_equal. lia.
  - apply bool_decide_eq_true in Hp.
    unfold Chat.handleImageUpload in Hstep.
    destruct (head files); injection Hstep as <- _; [|by split]. simpl.
    rewrite Hp, fmap_snoc, length_app, IHm. simpl.
    replace (length (Chat.messages st) + 1)%nat
      with (S (length (Chat.messages st))) by lia.
    rewrite seqZ_S. split; [|done]. simpl. do 2 f_equal. lia.
  - destruct (Chat.timers st) as [|[d cb] [|]] eqn:Hq; simpl in Hstep;
      [discriminate| |by destruct cb].
    destruct (d <=? now env); [|discriminate].
    injection Hstep as <- _. simpl. split; [|done].
    rewrite fmap_snoc, length_app, IHm. simpl.
    replace (length (Chat.messages st) + 1)%nat
      with (S (length (Chat.messages st))) by lia.
    rewrite seqZ_S. do 2 f_equal.
    destruct cb as [b|]; simpl; lia.
Qed.

(** When the user sends a query or picks a file only while no reply is
    pending, the ids of the chat screen's messages are 1, 2, 3, ... in
    the order of the list, hence all distinct, and at most one reply is
    pending. *)
Theorem patient_ids_distinct (st : Chat.State) :
  Chat.reachablePatient st ->
  id <$> Chat.messages st
    = seqZ 1 (Z.of_nat (length (Chat.messages st))) /\
  NoDup (id <$> Chat.messages st) /\
  (length (Chat.timers st) <= 1)%nat.
Proof.
  intros H. destruct (patient_pending st H) as [Hm Ht].
  split; [exact Hm|]. split; [rewrite Hm; apply NoDup_seqZ|].
  destruct (Chat.timers st) as [|[d [b|]] [|]]; simpl; done || lia.
Qed.

Lemma patient_ids_distinct_witness :
  NoDup (id <$> Chat.messages Sample.chatSent).
Proof.
  apply patient_ids_distinct.
  eapply (Chat.patient_step (Sample.at_ms 1000) Sample.chatTyped
            Chat.Submit); [|reflexivity|reflexivity].
  eapply (Chat.patient_step (Sample.at_ms 1000) (Chat.mount (Sample.at_ms 0))
            (Chat.Change (lit "a"))); [|reflexivity|reflexivity].
  apply Chat.patient_mount.
Defined.

(** ** What the lists hold *)

(** No blank message is ever shown: in every reachable state of the chat
    screen no message has an empty or white-space-only text, and in every
    reachable state of the moot-court screen no message of the user has. *)
Theorem no_blank_message (cst : Chat.State) (mst : Moot.State) :
  (Chat.reachable cst ->
   forall m, m ∈ Chat.messages cst -> blank (text m) = false) /\
  (Moot.reachable mst ->
   forall m, m ∈ Moot.messages mst -> sender m = user ->
             blank (text m) = false).
Proof.
  split.
  - induction 1 as [env|env st ev st' effs Hr IH Hstep].
    { intros m Hm. apply list_elem_of_singleton in Hm. by subst. }
    destruct ev as [value| |files|]; simpl in Hstep.
    + injection Hstep as <- _. exact IH.
    + unfold Chat.handleSend in Hstep.
      rewrite JSFacts.truthy_trim, negb_involutive in Hstep.
      destruct (blank (Chat.input st)) eqn:Hb;
        injection Hstep as <- _; [exact IH|].
      intros m [Hm|Hm]%elem_of_app; [auto|].
      apply list_elem_of_singleton in Hm. by subst.
    + unfold Chat.handleImageUpload in Hstep.
      destruct (head files); injection Hstep as <- _; [|exact IH].
      intros m [Hm|Hm]%elem_of_app; [auto|].
      apply list_elem_of_singleton in Hm. by subst.
    + destruct (Timers.due (now env) (Chat.timers st)) as [[cb rest]|];
        [|discriminate].
      injection Hstep as <- _.
      intros m [Hm|Hm]%elem_of_app; [auto|].
      apply list_elem_of_singleton in Hm. subst. by destruct cb.
  - induction 1 as [|env st ev st' effs Hr IH Hstep].
    { intros m Hm. apply list_elem_of_singleton in Hm. by subst. }
    destruct ev as [value| |]; simpl in Hstep.
    + destruct (Moot.inputDisabled st); [discriminate|].
      injection Hstep as <- _. exact IH.
    + destruct (Moot.inputDisabled st && Moot.buttonDisabled st);
        [discriminate|].
      unfold Moot.handleUserSubmit in Hstep.
      rewrite JSFacts.truthy_trim, negb_involutive in Hstep.
      destruct (blank (Moot.inputText st)) eqn:Hb;
        injection Hstep as <- _; [exact IH|].
      intros m [Hm|Hm]%elem_of_app; [auto|].
      apply list_elem_of_singleton in Hm. by subst.
    + destruct (Timers.due (now env) (Moot.timers st)) as [[cb rest]|];
        [|discriminate].
      destruct cb; injection Hstep as <- _;
        (intros m [Hm|Hm]%elem_of_app; [auto|]);
        apply list_elem_of_singleton in Hm; by subst.
Qed.

Lemma no_blank_message_witness :
  (forall m, m ∈ Chat.messages Sample.chatSent -> blank (text m) = false) /\
  (forall m, m ∈ Moot.messages Sample.mootOpposed -> sender m = user ->
             blank (text m) = false).
Proof.
  split.
  - apply (proj1 (no_blank_message Sample.chatSent Sample.mootOpposed)).
    apply (chat_run_reachable (take 2 Sample.twoQueries)
             (Chat.mount (Sample.at_ms 0)));
      [apply Chat.reachable_mount | reflexivity].
  - apply (proj2 (no_blank_message Sample.chatSent Sample.mootOpposed)).
    apply (moot_run_reachable (take 3 Sample.oneArgument) Moot.mount);
      [apply Moot.reachable_mount | reflexivity].
Defined.

(** ** The order of the moot-court session *)

Lemma exchanges_S (n : nat) :
  Moot.exchanges (S n) = Moot.exchanges n ++ [user; opponent; judge].
Proof.
  unfold Moot.exchanges. rewrite replicate_S_end, join_app. reflexivity.
Qed.

Lemma moot_senders_shape (st : Moot.State) :
  Moot.reachable st ->
  exists n, sender <$> Moot.messages st
            = Moot.exchanges n ++ Moot.underway (Moot.timers st).
Proof.
  induction 1 as [|env st ev st' effs Hr [n IH] Hstep]; [by exists 0%nat|].
  pose proof (moot_reachable_consistent st Hr) as Hc.
  unfold Moot.consistent in Hc.
  destruct ev as [value| |]; simpl in Hstep.
  - destruct (Moot.inputDisabled st); [discriminate|].
    injection Hstep as <- _. by exists n.
  - unfold Moot.inputDisabled, Moot.buttonDisabled in Hstep.
    destruct (Moot.isSimulating st) eqn:Hs; [discriminate|].
    simpl in Hstep. unfold Moot.handleUserSubmit in Hstep.
    destruct (negb (truthy (trim (Moot.inputText st))));
      injection Hstep as <- _; [by exists n|].
    destruct (Moot.timers st) as [|[d [|]] [|]] eqn:Hq;
      try (destruct Hc; congruence); try done.
    exists n. simpl. rewrite fmap_snoc, IH. simpl.
    by rewrite app_nil_r.
  - destruct (Moot.timers st) as [|[d cb] [|]] eqn:Hq; simpl in Hstep;
      [discriminate| |destruct cb; done].
    destruct (d <=? now env); [|discriminate].
    destruct cb; injection Hstep as <- _;
      cbn [Moot.messages Moot.timers]; rewrite fmap_snoc, IH.
    + exists n. simpl. by rewrite <- app_assoc.
    + exists (S n). rewrite exchanges_S. simpl.
      by rewrite <- app_assoc, app_nil_r.
Qed.

(** In every reachable state of the moot-court screen the senders of the
    list are the judge, for the opening, then a number of complete
    exchanges, each an argument of the user, the opponent's reply and the
    judge's, in that order, then the part of an exchange that is under
    way: nothing when nothing is pending, the user's argument while the
    opponent's reply is pending, and the argument and the opponent's reply
    while the judge's is. *)
Theorem moot_session_order (st : Moot.State) :
  Moot.reachable st ->
  exists n, sender <$> Moot.messages st
            = Moot.exchanges n ++ Moot.underway (Moot.timers st).
Proof. apply moot_senders_shape. Qed.

Lemma moot_session_order_witness :
  exists n, sender <$> Moot.messages Sample.mootOpposed
            = Moot.exchanges n ++ Moot.underway (Moot.timers Sample.mootOpposed).
Proof.
  apply moot_session_order.
  apply (moot_run_reachable (take 3 Sample.oneArgument) Moot.mount);
    [apply Moot.reachable_mount | reflexivity].
Defined.

(** ** The judge's speech bubble *)

Lemma find_first {A : Type} (f : A -> bool) (l : list A) (x : A) :
  find f l = Some x <->
  exists l1 l2, l = l1 ++ x :: l2 /\ f x = true /\
                forall y, y ∈ l1 -> f y = false.
Proof.
  induction l as [|a l IH]; simpl.
  - split; [discriminate|]. intros ([|? ?] & l2 & H & _); discriminate.
  - destruct (f a) eqn:Ha.
    + split.
      * intros [= ->]. exists [], l. split; [done|]. split; [done|].
        intros y Hy. by apply elem_of_nil in Hy.
      * intros ([|b l1] & l2 & H & Hx & Hl1); simpl in H.
        -- congruence.
        -- injection H as <- _. rewrite Hl1 in Ha; [discriminate|left].
    + rewrite IH. split.
      * intros (l1 & l2 & -> & Hx & Hl1). exists (a :: l1), l2.
        split; [done|]. split; [done|].
        intros y [->|Hy]%elem_of_cons; auto.
      * intros ([|b l1] & l2 & H & Hx & Hl1); simpl in H.
        -- congruence.
        -- injection H as <- ->. exists l1, l2. split; [done|].
           split; [done|]. intros y Hy. apply Hl1. by right.
Qed.

(** [latestJudgeMessage] is the last message of the judge in the list: it
    is a message [m] exactly when the list is some messages, then [m], of
    the judge, then messages none of which is of the judge; and there is
    none exactly when no message of the list is of the judge. *)
Theorem latest_judge_is_last (st : Moot.State) :
  (forall m,
     Moot.latestJudgeMessage st = Some m <->
     exists before after,
       Moot.messages st = before ++ m :: after /\ sender m = judge /\
       forall x, x ∈ after -> sender x <> judge) /\
  (Moot.latestJudgeMessage st = None <->
   forall x, x ∈ Moot.messages st -> sender x <> judge).
Proof.
  unfold Moot.latestJudgeMessage. split.
  - intros m. rewrite find_first. split.
    + intros (l1 & l2 & Hrev & Hm & Hl1).
      exists (reverse l2), (reverse l1).
      apply (f_equal reverse) in Hrev.
      rewrite reverse_involutive, reverse_app, reverse_cons in Hrev.
      rewrite <- app_assoc in Hrev. split; [exact Hrev|].
      split; [by apply bool_decide_eq_true in Hm|].
      intros x Hx. rewrite elem_of_reverse in Hx. apply Hl1 in Hx.
      by apply bool_decide_eq_false in Hx.
    + intros (l1 & l2 & -> & Hm & Hl2).
      exists (reverse l2), (reverse l1).
      rewrite reverse_app, reverse_cons, <- app_assoc.
      split; [done|]. split; [by apply bool_decide_eq_true|].
      intros y Hy. rewrite elem_of_reverse in Hy.
      apply bool_decide_eq_false. auto.
  - split.
    + intros Hnone x Hx Hj.
      assert (Hf : bool_decide (sender x = judge) = false).
      { apply (find_none _ _ Hnone x).
        apply list_elem_of_In. by rewrite elem_of_reverse. }
      by apply bool_decide_eq_false in Hf.
    + intros Hall.
      destruct (find _ _) as [m|] eqn:E; [|done].
      apply find_some in E as [Hin Hm].
      apply list_elem_of_In in Hin. rewrite elem_of_reverse in Hin.
      apply bool_decide_eq_true in Hm. by apply Hall in Hin.
Qed.

Lemma latest_judge_snoc (st st' : Moot.State) (m : Message) :
  Moot.messages st' = Moot.messages st ++ [m] ->
  Moot.latestJudgeMessage st' =
    if bool_decide (sender m = judge) then Some m
    else Moot.latestJudgeMessage st.
Proof.
  unfold Moot.latestJudgeMessage. intros ->. by rewrite reverse_snoc.
Qed.

(** In every reachable state of the moot-court screen the judge's bubble
    is visible, never the placeholder.  The judge's callback appends its
    reply at the end of the list, and the bubble then shows the text of
    that reply; every other step (typing, presenting an argument, the
    opponent's callback) leaves the bubble as it is. *)
Theorem judge_bubble (st : Moot.State) :
  Moot.reachable st ->
  fst (Moot.judgeBubble st) = true /\
  forall env ev st' effs,
    Moot.step env st ev = Some (st', effs) ->
    match ev, Moot.timers st with
    | Moot.Timeout, (_, Moot.JudgeTurn) :: _ =>
        last (Moot.messages st')
          = Some {| id := now env + 2;
                    text := Moot.generateJudgeResponse env;
                    image := None; sender := judge; timestamp := None |} /\
        Moot.judgeBubble st' = (true, Moot.generateJudgeResponse env)
    | _, _ => Moot.judgeBubble st' = Moot.judgeBubble st
    end.
Proof.
  intros Hr. split.
  - induction Hr as [|env st ev st' effs Hr IH Hstep]; [reflexivity|].
    unfold Moot.judgeBubble in *.
    destruct (moot_step_appends _ _ _ _ _ Hstep) as [Heq|[m Hm]].
    + unfold Moot.latestJudgeMessage in *. by rewrite Heq.
    + rewrite (latest_judge_snoc _ _ _ Hm). by case_bool_decide.
  - intros env ev st' effs Hstep. unfold Moot.judgeBubble.
    destruct ev as [value| |]; simpl in Hstep.
    + destruct (Moot.inputDisabled st); [discriminate|].
      by injection Hstep as <- _.
    + destruct (Moot.inputDisabled st && Moot.buttonDisabled st);
        [discriminate|].
      unfold Moot.handleUserSubmit in Hstep.
      destruct (negb (truthy (trim (Moot.inputText st))));
        injection Hstep as <- _; [done|].
      by erewrite latest_judge_snoc by reflexivity.
    + destruct (Moot.timers st) as [|[d cb] rest]; [discriminate|].
      simpl in Hstep. destruct (d <=? now env); [|discriminate].
      destruct cb; injection Hstep as <- _.
      * by erewrite latest_judge_snoc by reflexivity.
      * split; [apply last_snoc|].
        by erewrite latest_judge_snoc by reflexivity.
Qed.

Lemma judge_bubble_witness :
  fst (Moot.judgeBubble Sample.mootOpposed) = true /\
  Moot.judgeBubble
    (fst (Moot.runTimer (Sample.at_ms 4500) Moot.JudgeTurn []
            Sample.mootOpposed))
  = (true, Moot.generateJudgeResponse (Sample.at_ms 4500)).
Proof.
  assert (Hr : Moot.reachable Sample.mootOpposed).
  { apply (moot_run_reachable (take 3 Sample.oneArgument) Moot.mount);
      [apply Moot.reachable_mount | reflexivity]. }
  destruct (judge_bubble Sample.mootOpposed Hr) as [Hv Hs].
  split; [exact Hv|].
  apply (Hs (Sample.at_ms 4500) Moot.Timeout _ [] eq_refl).
Defined.

(** ** The keys of the argument floor *)

Lemma floorKeys_snoc (st st' : Moot.State) (m : Message) :
  Moot.messages st' = Moot.messages st ++ [m] ->
  Moot.floorKeys st' =
    Moot.floorKeys st ++ (if bool_decide (sender m = judge) then []
                          else [id m]).
Proof.
  unfold Moot.floorKeys, Moot.argumentFloor. intros ->.
  rewrite omap_app, fmap_app. f_equal. simpl. by case_bool_decide.
Qed.

Lemma sorted_snoc_above (l : list Z) (x : Z) :
  StronglySorted Z.lt l -> Forall (fun k => k < x) l ->
  StronglySorted Z.lt (l ++ [x]).
Proof.
  intros Hs Hl. apply StronglySorted_app_2; [|exact Hs|].
  - intros x1 x2 H1 H2. apply list_elem_of_singleton in H2. subst.
    rewrite Forall_forall in Hl. auto.
  - by repeat constructor.
Qed.

Lemma sorted_lt_NoDup (l : list Z) : StronglySorted Z.lt l -> NoDup l.
Proof.
  induction 1 as [|x l Hs IH Hx]; constructor; [|exact IH].
  intros Hin. rewrite Forall_forall in Hx. apply Hx in Hin. lia.
Qed.

Lemma floor_step (t : Z) (env : Env) (st st' : Moot.State)
    (ev : Moot.Event) (effs : list Effect) :
  Moot.floorInv t st -> t <= now env ->
  Moot.step env st ev = Some (st', effs) ->
  Moot.floorInv (now env) st'.
Proof.
  intros [Hs Hq] Ht Hstep. unfold Moot.floorInv.
  destruct ev as [value| |]; simpl in Hstep.
  - unfold Moot.inputDisabled in Hstep.
    destruct (Moot.isSimulating st) eqn:Hsim; [discriminate|].
    injection Hstep as <- _.
    change (Moot.floorKeys (Moot.handleInput value st))
      with (Moot.floorKeys st). simpl. split; [exact Hs|].
    destruct (Moot.timers st) as [|[d [|]] [|]];
      try (destruct Hq; congruence); try done.
    split; [done|]. eapply Forall_impl; [apply Hq|].
    simpl. intros k Hk. lia.
  - unfold Moot.inputDisabled, Moot.buttonDisabled in Hstep.
    destruct (Moot.isSimulating st) eqn:Hsim; [discriminate|].
    simpl in Hstep.
    destruct (Moot.timers st) as [|[d [|]] [|]] eqn:Htm;
      try (destruct Hq; congruence); try done.
    destruct Hq as [_ Hq].
    unfold Moot.handleUserSubmit in Hstep.
    destruct (negb (truthy (trim (Moot.inputText st))));
      injection Hstep as <- _.
    + rewrite Htm. split; [exact Hs|]. split; [done|].
      eapply Forall_impl; [apply Hq|]. simpl. intros k Hk. lia.
    + erewrite (floorKeys_snoc st) by reflexivity. simpl. rewrite Htm. simpl.
      split.
      * apply sorted_snoc_above; [exact Hs|].
        eapply Forall_impl; [apply Hq|]. simpl. intros k Hk. lia.
      * split; [done|]. apply Forall_app_2.
        -- eapply Forall_impl; [apply Hq|]. simpl. intros k Hk. lia.
        -- apply Forall_singleton. lia.
  - destruct (Moot.timers st) as [|[d cb] [|]] eqn:Htm; simpl in Hstep;
      [discriminate| |by destruct cb].
    destruct (Z.leb_spec d (now env)) as [Hd|]; [|discriminate].
    destruct cb; destruct Hq as [Hsim Hq]; injection Hstep as <- _;
      erewrite (floorKeys_snoc st) by reflexivity; simpl.
    + split.
      * apply sorted_snoc_above; [exact Hs|].
        eapply Forall_impl; [apply Hq|]. simpl. intros k Hk. lia.
      * split; [done|]. apply Forall_app_2.
        -- eapply Forall_impl; [apply Hq|]. simpl. intros k Hk. lia.
        -- apply Forall_singleton. lia.
    + rewrite app_nil_r. split; [exact Hs|]. split; [done|].
      eapply Forall_impl; [apply Hq|]. simpl. intros k Hk. lia.
Qed.

Lemma floor_run (evs : list (Env * Moot.Event)) (t : Z)
    (st st' : Moot.State) :
  Moot.floorInv t st -> Clock.chronological t evs ->
  Moot.run st evs = Some st' -> exists t', Moot.floorInv t' st'.
Proof.
  revert t st. induction evs as [|[env ev] evs IH]; intros t st Hinv; simpl.
  - intros _ [= <-]. eauto.
  - intros [Ht Hc].
    destruct (Moot.step env st ev) as [[st1 effs]|] eqn:E; [|discriminate].
    apply (IH (now env)); [|exact Hc]. eapply floor_step; eauto.
Qed.

(** When the events of a run of the moot-court screen come in time order,
    the React keys of the rows of the argument floor, which are the ids of
    the user's and the opponent's messages, increase strictly along the
    floor; no two rows have the same key. *)
Theorem floor_keys_increase (t : Z) (evs : list (Env * Moot.Event))
    (st : Moot.State) :
  Clock.chronological t evs ->
  Moot.run Moot.mount evs = Some st ->
  StronglySorted Z.lt (Moot.key <$> Moot.argumentFloor st) /\
  NoDup (Moot.key <$> Moot.argumentFloor st).
Proof.
  intros Hc Hrun.
  destruct (floor_run evs t Moot.mount st) as [t' [Hs _]];
    [|exact Hc|exact Hrun|].
  - split; [constructor|]. simpl. split; [done|constructor].
  - split; [exact Hs|]. by apply sorted_lt_NoDup.
Qed.

Lemma floor_keys_increase_witness :
  NoDup (Moot.key <$> Moot.argumentFloor Sample.mootOpposed).
Proof.
  apply (floor_keys_increase 1762000000000 (take 3 Sample.oneArgument)).
  - simpl. lia.
  - reflexivity.
Defined.

Lemma generated_in_pool_witness :
  Moot.generateOpponentResponse (Sample.at_ms 0) ∈ Moot.opponentResponses /\
  Moot.generateJudgeResponse (Sample.at_ms 0) ∈ Moot.judgeResponses.
Proof. apply (generated_in_pool (Sample.at_ms 0)). reflexivity. Defined.

(** ** The error message of the forms *)

Lemma falsy_nil (s : jsstring) : truthy s = false -> s = [].
Proof. by destruct s. Qed.

Lemma handleChange_clears_login (name : Login.Field) (value : jsstring)
    (st : Login.State) :
  Login.error (Login.handleChange name value st) = [].
Proof.
  simpl. destruct (truthy (Login.error st)) eqn:E; [done|].
  by apply falsy_nil.
Qed.

Lemma handleChange_clears_signup (name : SignUp.Field) (value : jsstring)
    (st : SignUp.State) :
  SignUp.error (SignUp.handleChange name value st) = [].
Proof.
  simpl. destruct (truthy (SignUp.error st)) eqn:E; [done|].
  by apply falsy_nil.
Qed.

(** In every state the login form can reach by typing and submitting, the
    error shown describes the fields as they are: either no error is
    shown, or the "enter both" message is shown and one of the two fields
    is empty.  So a submission that navigates never leaves an error on
    the form. *)
Theorem login_error_current (st : Login.State) :
  Login.reachable st ->
  (Login.error st = [] \/
   Login.error st = Login.missingText /\
   (Login.email (Login.credentials st) = [] \/
    Login.password (Login.credentials st) = [])) /\
  (Router.navigations (snd (Login.handleSubmit st)) <> [] ->
   Login.error (fst (Login.handleSubmit st)) = []).
Proof.
  intros Hr.
  assert (Hinv : Login.error st = [] \/
                 Login.error st = Login.missingText /\
                 (Login.email (Login.credentials st) = [] \/
                  Login.password (Login.credentials st) = [])).
  { induction Hr as [|st ev Hr IH]; [by left|].
    destruct ev as [name value|]; simpl.
    - left. apply (handleChange_clears_login name value st).
    - destruct (Login.submittable st); [|exact IH].
      unfold Login.handleSubmit.
      destruct st as [[e p] err]; simpl in *.
      destruct e; simpl; [right; auto|].
      destruct p; simpl; [right; auto|]. exact IH. }
  split; [exact Hinv|].
  unfold Login.handleSubmit. destruct st as [[e p] err]; simpl in *.
  destruct e; simpl; [done|]. destruct p; simpl; [done|].
  intros _. destruct Hinv as [H|[_ [H|H]]]; done.
Qed.

Lemma login_error_current_witness :
  Login.error (fst (Login.step Login.mount Login.Submit)) = [] \/
  Login.error (fst (Login.step Login.mount Login.Submit))
    = Login.missingText /\
  (Login.email (Login.credentials (fst (Login.step Login.mount Login.Submit)))
     = [] \/
   Login.password
     (Login.credentials (fst (Login.step Login.mount Login.Submit))) = []).
Proof.
  apply login_error_current.
  apply Login.reachable_step, Login.reachable_mount.
Defined.

(** In every state the sign-up form can reach by typing and submitting,
    the error shown describes the fields as they are: no error; or the
    "fill in all fields" message, and one of the three fields is empty; or
    the "do not match" message, and the three fields are non-empty with
    two different passwords.  So a submission that navigates never leaves
    an error on the form. *)
Theorem signup_error_current (st : SignUp.State) :
  SignUp.reachable st ->
  let d := SignUp.formData st in
  (SignUp.error st = [] \/
   SignUp.error st = SignUp.missingText /\
   (SignUp.email d = [] \/ SignUp.password d = [] \/
    SignUp.confirmPassword d = []) \/
   SignUp.error st = SignUp.mismatchText /\
   SignUp.email d <> [] /\ SignUp.password d <> [] /\
   SignUp.confirmPassword d <> [] /\
   SignUp.password d <> SignUp.confirmPassword d) /\
  (Router.navigations (snd (SignUp.handleSubmit st)) <> [] ->
   SignUp.error (fst (SignUp.handleSubmit st)) = []).
Proof.
  intros Hr d.
  assert (Hinv : SignUp.error st = [] \/
     SignUp.error st = SignUp.missingText /\
     (SignUp.email d = [] \/ SignUp.password d = [] \/
      SignUp.confirmPassword d = []) \/
     SignUp.error st = SignUp.mismatchText /\
     SignUp.email d <> [] /\ SignUp.password d <> [] /\
     SignUp.confirmPassword d <> [] /\
     SignUp.password d <> SignUp.confirmPassword d).
  { subst d. induction Hr as [|st ev Hr IH]; [by left|].
    destruct ev as [name value|]; simpl.
    - left. apply (handleChange_clears_signup name value st).
    - destruct (SignUp.submittable st); [|exact IH].
      unfold SignUp.handleSubmit.
      destruct st as [[e p c] err]; simpl in *.
      destruct e; simpl; [right; left; auto|].
      destruct p; simpl; [right; left; auto|].
      destruct c; simpl; [right; left; auto|].
      case_bool_decide; simpl; [exact IH|].
      right. right. repeat split; done. }
  split; [exact Hinv|].
  subst d. unfold SignUp.handleSubmit.
  destruct st as [[e p c] err]; simpl in *.
  destruct e; simpl; [done|]. destruct p; simpl; [done|].
  destruct c; simpl; [done|].
  case_bool_decide; simpl; [|done].
  intros _.
  destruct Hinv as [E|[[_ [E|[E|E]]]|(_ & _ & _ & _ & E)]]; done.
Qed.

Lemma signup_error_current_witness :
  let st := fst (SignUp.step SignUp.mount SignUp.Submit) in
  SignUp.error st = [] \/
  SignUp.error st = SignUp.missingText /\
  (SignUp.email (SignUp.formData st) = [] \/
   SignUp.password (SignUp.formData st) = [] \/
   SignUp.confirmPassword (SignUp.formData st) = []) \/
  SignUp.error st = SignUp.mismatchText /\
  SignUp.email (SignUp.formData st) <> [] /\
  SignUp.password (SignUp.formData st) <> [] /\
  SignUp.confirmPassword (SignUp.formData st) <> [] /\
  SignUp.password (SignUp.formData st)
    <> SignUp.confirmPassword (SignUp.formData st).
Proof.
  apply (proj1 (signup_error_current
                  (fst (SignUp.step SignUp.mount SignUp.Submit))
                  (SignUp.reachable_step _ _ SignUp.reachable_mount))).
Defined.

Lemma login_typeAll_snoc (st : Login.State)
    (keys : list (Login.Field * jsstring)) (kv : Login.Field * jsstring) :
  Login.typeAll st (keys ++ [kv])
  = Login.handleChange kv.1 kv.2 (Login.typeAll st keys).
Proof. unfold Login.typeAll. by rewrite foldl_app. Qed.

Lemma signup_typeAll_snoc (st : SignUp.State)
    (keys : list (SignUp.Field * jsstring)) (kv : SignUp.Field * jsstring) :
  SignUp.typeAll st (keys ++ [kv])
  = SignUp.handleChange kv.1 kv.2 (SignUp.typeAll st keys).
Proof. unfold SignUp.typeAll. by rewrite foldl_app. Qed.

Lemma login_typed (st : Login.State)
    (keys : list (Login.Field * jsstring)) :
  let st' := Login.typeAll st keys in
  Login.email (Login.credentials st')
    = default (Login.email (Login.credentials st))
        (last (omap (fun kv => match kv.1 with
                               | Login.Email => Some kv.2
                               | _ => None
                               end) keys)) /\
  Login.password (Login.credentials st')
    = default (Login.password (Login.credentials st))
        (last (omap (fun kv => match kv.1 with
                               | Login.Password => Some kv.2
                               | _ => None
                               end) keys)) /\
  (keys <> [] -> Login.error st' = []).
Proof.
  induction keys as [|[name value] keys IH] using rev_ind; [done|].
  cbv zeta in *. rewrite login_typeAll_snoc, !omap_app.
  destruct IH as (IHe & IHp & _). repeat split.
  - destruct name; csimpl; [by rewrite last_snoc|by rewrite app_nil_r].
  - destruct name; csimpl; [by rewrite app_nil_r|by rewrite last_snoc].
  - intros _. apply handleChange_clears_login.
Qed.

Lemma signup_typed (st : SignUp.State)
    (keys : list (SignUp.Field * jsstring)) :
  let st' := SignUp.typeAll st keys in
  SignUp.email (SignUp.formData st')
    = default (SignUp.email (SignUp.formData st))
        (last (omap (fun kv => match kv.1 with
                               | SignUp.Email => Some kv.2
                               | _ => None
                               end) keys)) /\
  SignUp.password (SignUp.formData st')
    = default (SignUp.password (SignUp.formData st))
        (last (omap (fun kv => match kv.1 with
                               | SignUp.Password => Some kv.2
                               | _ => None
                               end) keys)) /\
  SignUp.confirmPassword (SignUp.formData st')
    = default (SignUp.confirmPassword (SignUp.formData st))
        (last (omap (fun kv => match kv.1 with
                               | SignUp.ConfirmPassword => Some kv.2
                               | _ => None
                               end) keys)) /\
  (keys <> [] -> SignUp.error st' = []).
Proof.
  induction keys as [|[name value] keys IH] using rev_ind; [done|].
  cbv zeta in *. rewrite signup_typeAll_snoc, !omap_app.
  destruct IH as (IHe & IHp & IHc & _). repeat split.
  - destruct name; csimpl; rewrite ?last_snoc, ?app_nil_r; done.
  - destruct name; csimpl; rewrite ?last_snoc, ?app_nil_r; done.
  - destruct name; csimpl; rewrite ?last_snoc, ?app_nil_r; done.
  - intros _. apply handleChange_clears_signup.
Qed.

(** Typing and submitting.  After any sequence of keystrokes, in any order
    and any number per field, each field of a form holds the value typed
    last in it, or what it held before when nothing was typed in it, and
    no error is shown once something was typed.  Submitting then
    navigates to the chat screen exactly when the browser's validation of
    the e-mail lets the submission through and, for the login form, the
    two fields are non-empty, for the sign-up form, the three fields are
    non-empty and the two passwords are equal; otherwise it navigates
    nowhere. *)
Theorem fill_and_submit (lst : Login.State) (sst : SignUp.State)
    (lkeys : list (Login.Field * jsstring))
    (skeys : list (SignUp.Field * jsstring)) :
  let lst' := Login.typeAll lst lkeys in
  let sst' := SignUp.typeAll sst skeys in
  (Login.email (Login.credentials lst')
     = default (Login.email (Login.credentials lst))
         (last (omap (fun kv => match kv.1 with
                                | Login.Email => Some kv.2
                                | _ => None
                                end) lkeys)) /\
   Login.password (Login.credentials lst')
     = default (Login.password (Login.credentials lst))
         (last (omap (fun kv => match kv.1 with
                                | Login.Password => Some kv.2
                                | _ => None
                                end) lkeys)) /\
   (lkeys <> [] -> Login.error lst' = []) /\
   Router.navigations (snd (Login.step lst' Login.Submit))
     = if Login.submittable lst'
          && truthy (Login.email (Login.credentials lst'))
          && truthy (Login.password (Login.credentials lst'))
       then [Some Router.ChatInterface] else []) /\
  (SignUp.email (SignUp.formData sst')
     = default (SignUp.email (SignUp.formData sst))
         (last (omap (fun kv => match kv.1 with
                                | SignUp.Email => Some kv.2
                                | _ => None
                                end) skeys)) /\
   SignUp.password (SignUp.formData sst')
     = default (SignUp.password (SignUp.formData sst))
         (last (omap (fun kv => match kv.1 with
                                | SignUp.Password => Some kv.2
                                | _ => None
                                end) skeys)) /\
   SignUp.confirmPassword (SignUp.formData sst')
     = default (SignUp.confirmPassword (SignUp.formData sst))
         (last (omap (fun kv => match kv.1 with
                                | SignUp.ConfirmPassword => Some kv.2
                                | _ => None
                                end) skeys)) /\
   (skeys <> [] -> SignUp.error sst' = []) /\
   Router.navigations (snd (SignUp.step sst' SignUp.Submit))
     = if SignUp.submittable sst'
          && truthy (SignUp.email (SignUp.formData sst'))
          && truthy (SignUp.password (SignUp.formData sst'))
          && truthy (SignUp.confirmPassword (SignUp.formData sst'))
          && bool_decide (SignUp.password (SignUp.formData sst')
                          = SignUp.confirmPassword (SignUp.formData sst'))
       then [Some Router.ChatInterface] else []).
Proof.
  cbv zeta. split.
  - destruct (login_typed lst lkeys) as (He & Hp & Herr).
    split; [exact He|]. split; [exact Hp|]. split; [exact Herr|].
    unfold Login.step.
    destruct (Login.submittable (Login.typeAll lst lkeys)); [|reflexivity].
    unfold Login.handleSubmit.
    destruct (truthy (Login.email _)), (truthy (Login.password _));
      reflexivity.
  - destruct (signup_typed sst skeys) as (He & Hp & Hc & Herr).
    split; [exact He|]. split; [exact Hp|]. split; [exact Hc|].
    split; [exact Herr|].
    unfold SignUp.step.
    destruct (SignUp.submittable (SignUp.typeAll sst skeys)); [|reflexivity].
    unfold SignUp.handleSubmit. cbv zeta.
    destruct (truthy (SignUp.email _)), (truthy (SignUp.password _)),
      (truthy (SignUp.confirmPassword _)); simpl; try reflexivity.
    by case_bool_decide.
Qed.

Lemma fill_and_submit_witness :
  Login.error
    (Login.typeAll (fst (Login.step Login.mount Login.Submit))
       [(Login.Password, lit "p"); (Login.Email, lit "a");
        (Login.Email, lit "a@b.in"); (Login.Password, lit "pw")]) = [] /\
  SignUp.error
    (SignUp.typeAll (fst (SignUp.step SignUp.mount SignUp.Submit))
       [(SignUp.Email, lit "a@b.in")]) = [].
Proof.
  pose proof (fill_and_submit (fst (Login.step Login.mount Login.Submit))
    (fst (SignUp.step SignUp.mount SignUp.Submit))
    [(Login.Password, lit "p"); (Login.Email, lit "a");
     (Login.Email, lit "a@b.in"); (Login.Password, lit "pw")]
    [(SignUp.Email, lit "a@b.in")]) as [(_ & _ & Hl & _) (_ & _ & _ & Hs & _)].
  split; [apply Hl|apply Hs]; discriminate.
Defined.

(** ** Getting from page to page *)

Lemma goto_routes (env : Env) :
  App.goto env (lit "/") = App.LandingPage /\
  App.goto env (lit "/signup") = App.SignUpPage SignUp.mount /\
  App.goto env (lit "/login") = App.LoginPage Login.mount /\
  App.goto env (lit "/chat") = App.ChatPage (Chat.mount env) /\
  App.goto env (lit "/court") = App.CourtPage Moot.mount.
Proof. repeat split. Qed.

Lemma chat_step_stays (env : Env) (st st' : Chat.State) (ev : Chat.Event)
    (effs : list Effect) (page : App.Page) :
  Chat.step env st ev = Some (st', effs) -> App.follow env effs page = page.
Proof.
  destruct ev as [value| |files|]; simpl.
  - by intros [= _ <-].
  - unfold Chat.handleSend.
    by destruct (negb (truthy (trim (Chat.input st)))); intros [= _ <-].
  - unfold Chat.handleImageUpload.
    by destruct (head files); intros [= _ <-].
  - destruct (Timers.due (now env) (Chat.timers st)) as [[cb rest]|];
      [|discriminate].
    by intros [= _ <-].
Qed.

Lemma moot_step_stays (env : Env) (st st' : Moot.State) (ev : Moot.Event)
    (effs : list Effect) (page : App.Page) :
  Moot.step env st ev = Some (st', effs) -> App.follow env effs page = page.
Proof.
  destruct ev as [value| |]; simpl.
  - destruct (Moot.inputDisabled st); [discriminate|]. by intros [= _ <-].
  - destruct (Moot.inputDisabled st && Moot.buttonDisabled st);
      [discriminate|].
    unfold Moot.handleUserSubmit.
    by destruct (negb (truthy (trim (Moot.inputText st)))); intros [= _ <-].
  - destruct (Timers.due (now env) (Moot.timers st)) as [[cb rest]|];
      [|discriminate].
    by destruct cb; intros [= _ <-].
Qed.

Lemma login_step_follow (env : Env) (st : Login.State) (ev : Login.Event) :
  App.follow env (snd (Login.step st ev)) (App.LoginPage (fst (Login.step st ev)))
  = match ev with
    | Login.Submit =>
        if Login.submittable st
           && truthy (Login.email (Login.credentials st))
           && truthy (Login.password (Login.credentials st))
        then App.ChatPage (Chat.mount env)
        else App.LoginPage (fst (Login.step st ev))
    | Login.Change _ _ => App.LoginPage (fst (Login.step st ev))
    end.
Proof.
  destruct ev as [name value|]; [reflexivity|].
  simpl. destruct (Login.submittable st); [|reflexivity].
  unfold Login.handleSubmit.
  destruct (truthy (Login.email (Login.credentials st)));
    [|reflexivity].
  destruct (truthy (Login.password (Login.credentials st))); reflexivity.
Qed.

Lemma signup_step_follow (env : Env) (st : SignUp.State)
    (ev : SignUp.Event) :
  App.follow env (snd (SignUp.step st ev))
    (App.SignUpPage (fst (SignUp.step st ev)))
  = match ev with
    | SignUp.Submit =>
        let d := SignUp.formData st in
        if SignUp.submittable st
           && truthy (SignUp.email d) && truthy (SignUp.password d)
           && truthy (SignUp.confirmPassword d)
           && bool_decide (SignUp.password d = SignUp.confirmPassword d)
        then App.ChatPage (Chat.mount env)
        else App.SignUpPage (fst (SignUp.step st ev))
    | SignUp.Change _ _ => App.SignUpPage (fst (SignUp.step st ev))
    end.
Proof.
  destruct ev as [name value|]; [reflexivity|].
  simpl. destruct (SignUp.submittable st); [|reflexivity].
  unfold SignUp.handleSubmit.
  destruct (truthy (SignUp.email (SignUp.formData st))); [|reflexivity].
  destruct (truthy (SignUp.password (SignUp.formData st))); [|reflexivity].
  destruct (truthy (SignUp.confirmPassword (SignUp.formData st)));
    [|reflexivity].
  simpl. by case_bool_decide.
Qed.

Lemma truthy_not_nil (s : jsstring) : truthy s = true -> s <> [].
Proof. by destruct s. Qed.

(** Through the pages' own buttons, links and forms, the chat screen is
    entered only by submitting the login form with both fields non-empty
    or the sign-up form with the three fields non-empty and equal
    passwords, and it is then freshly mounted; any other step that ends on
    the chat screen is a step of the chat screen itself. *)
Theorem chat_entered_by_submit (env : Env) (page : App.Page)
    (ev : App.Event) (cst : Chat.State) :
  App.step env page ev = Some (App.ChatPage cst) ->
  (exists cst0 e effs,
     page = App.ChatPage cst0 /\ ev = App.ChatEvent e /\
     Chat.step env cst0 e = Some (cst, effs)) \/
  cst = Chat.mount env /\
  ((exists lst,
      page = App.LoginPage lst /\ ev = App.LoginEvent Login.Submit /\
      Login.email (Login.credentials lst) <> [] /\
      Login.password (Login.credentials lst) <> []) \/
   (exists sst,
      page = App.SignUpPage sst /\ ev = App.SignUpEvent SignUp.Submit /\
      SignUp.email (SignUp.formData sst) <> [] /\
      SignUp.password (SignUp.formData sst) <> [] /\
      SignUp.confirmPassword (SignUp.formData sst) <> [] /\
      SignUp.password (SignUp.formData sst)
        = SignUp.confirmPassword (SignUp.formData sst))).
Proof.
  destruct page as [|lst|sst|cst0|mst|]; destruct ev; simpl;
    try discriminate.
  - rewrite login_step_follow. destruct ev as [name value|]; [discriminate|].
    destruct (Login.submittable lst);
      destruct (truthy (Login.email (Login.credentials lst))) eqn:He;
      destruct (truthy (Login.password (Login.credentials lst))) eqn:Hp;
      simpl; try discriminate.
    intros [= <-]. right. split; [done|]. left. exists lst.
    auto using truthy_not_nil.
  - rewrite signup_step_follow. destruct ev as [name value|]; [discriminate|].
    simpl.
    destruct (SignUp.submittable sst);
      destruct (truthy (SignUp.email (SignUp.formData sst))) eqn:He;
      destruct (truthy (SignUp.password (SignUp.formData sst))) eqn:Hp;
      destruct (truthy (SignUp.confirmPassword (SignUp.formData sst)))
        eqn:Hc;
      simpl; try discriminate.
    case_bool_decide; [|discriminate].
    intros [= <-]. right. split; [done|]. right. exists sst.
    repeat split; auto using truthy_not_nil.
  - destruct (Chat.step env cst0 ev) as [[st' effs]|] eqn:E; [|discriminate].
    rewrite (chat_step_stays _ _ _ _ _ _ E). intros [= <-]. left.
    exists cst0, ev, effs. auto.
  - destruct (Moot.step env mst ev) as [[st' effs]|] eqn:E; [|discriminate].
    rewrite (moot_step_stays _ _ _ _ _ _ E). discriminate.
Qed.

Lemma chat_entered_by_submit_witness :
  (exists cst0 e effs,
     App.LoginPage Sample.loginFilled = App.ChatPage cst0 /\
     App.LoginEvent Login.Submit = App.ChatEvent e /\
     Chat.step (Sample.at_ms 0) cst0 e
       = Some (Chat.mount (Sample.at_ms 0), effs)) \/
  Chat.mount (Sample.at_ms 0) = Chat.mount (Sample.at_ms 0) /\
  ((exists lst,
      App.LoginPage Sample.loginFilled = App.LoginPage lst /\
      App.LoginEvent Login.Submit = App.LoginEvent Login.Submit /\
      Login.email (Login.credentials lst) <> [] /\
      Login.password (Login.credentials lst) <> []) \/
   (exists sst,
      App.LoginPage Sample.loginFilled = App.SignUpPage sst /\
      App.LoginEvent Login.Submit = App.SignUpEvent SignUp.Submit /\
      SignUp.email (SignUp.formData sst) <> [] /\
      SignUp.password (SignUp.formData sst) <> [] /\
      SignUp.confirmPassword (SignUp.formData sst) <> [] /\
      SignUp.password (SignUp.formData sst)
        = SignUp.confirmPassword (SignUp.formData sst))).
Proof.
  apply (chat_entered_by_submit (Sample.at_ms 0)). reflexivity.
Defined.

(** Through the pages' own buttons, links and forms, the moot-court screen
    is entered only by the Moot Court Simulator button of the chat screen,
    and it is then freshly mounted; and nothing on the moot-court screen
    leads away from it: every step taken there ends there. *)
Theorem court_entered_from_chat (env : Env) (page page' : App.Page)
    (ev : App.Event) (mst : Moot.State) :
  (App.step env page ev = Some (App.CourtPage mst) ->
   (exists mst0 e effs,
      page = App.CourtPage mst0 /\ ev = App.CourtEvent e /\
      Moot.step env mst0 e = Some (mst, effs)) \/
   (exists cst, page = App.ChatPage cst) /\ ev = App.ChatCourtButton /\
   mst = Moot.mount) /\
  (App.step env (App.CourtPage mst) ev = Some page' ->
   exists mst', page' = App.CourtPage mst').
Proof.
  split.
  - destruct page as [|lst|sst|cst0|mst0|]; destruct ev; simpl;
      try discriminate.
    + rewrite login_step_follow. destruct ev as [name value|];
        [discriminate|].
      by destruct (Login.submittable lst),
        (truthy (Login.email (Login.credentials lst))),
        (truthy (Login.password (Login.credentials lst))).
    + rewrite signup_step_follow. destruct ev as [name value|];
        [discriminate|]. simpl.
      destruct (SignUp.submittable sst),
        (truthy (SignUp.email (SignUp.formData sst))),
        (truthy (SignUp.password (SignUp.formData sst))),
        (truthy (SignUp.confirmPassword (SignUp.formData sst)));
        simpl; try discriminate.
      by case_bool_decide.
    + destruct (Chat.step env cst0 ev) as [[st' effs]|] eqn:E;
        [|discriminate].
      rewrite (chat_step_stays _ _ _ _ _ _ E). discriminate.
    + intros [= <-]. right. eauto.
    + destruct (Moot.step env mst0 ev) as [[st' effs]|] eqn:E;
        [|discriminate].
      rewrite (moot_step_stays _ _ _ _ _ _ E). intros [= <-]. left.
      exists mst0, ev, effs. auto.
  - destruct ev; simpl; try discriminate.
    destruct (Moot.step env mst ev) as [[st' effs]|] eqn:E; [|discriminate].
    rewrite (moot_step_stays _ _ _ _ _ _ E). intros [= <-]. eauto.
Qed.

Lemma court_entered_from_chat_witness :
  ((exists mst0 e effs,
      App.ChatPage Sample.chatSent = App.CourtPage mst0 /\
      App.ChatCourtButton = App.CourtEvent e /\
      Moot.step (Sample.at_ms 1000) mst0 e = Some (Moot.mount, effs)) \/
   (exists cst, App.ChatPage Sample.chatSent = App.ChatPage cst) /\
   App.ChatCourtButton = App.ChatCourtButton /\ Moot.mount = Moot.mount) /\
  (exists mst', App.CourtPage Sample.mootSent = App.CourtPage mst').
Proof.
  split.
  - apply (proj1 (court_entered_from_chat (Sample.at_ms 1000)
                    (App.ChatPage Sample.chatSent) App.LandingPage
                    App.ChatCourtButton Moot.mount)).
    reflexivity.
  - apply (proj2 (court_entered_from_chat (Sample.at_ms 1000)
                    App.LandingPage (App.CourtPage Sample.mootSent)
                    (App.CourtEvent Moot.Submit) Sample.mootTyped)).
    reflexivity.
Defined.

(** No button, link or form of the pages leads to a path without a route:
    whatever the user does from the landing page on, one of the five
    screens is on the page. *)
Theorem no_dead_link (page : App.Page) :
  App.reachable page -> page <> App.NoMatch.
Proof.
  induction 1 as [|env page ev page' Hr IH Hstep]; [discriminate|].
  destruct page as [|lst|sst|cst0|mst0|]; destruct ev; simpl in Hstep;
    try discriminate;
    try (injection Hstep as <-; discriminate).
  - rewrite login_step_follow in Hstep. injection Hstep as <-.
    destruct ev as [name value|]; [discriminate|].
    by destruct (Login.submittable lst),
      (truthy (Login.email (Login.credentials lst))),
      (truthy (Login.password (Login.credentials lst))).
  - rewrite signup_step_follow in Hstep. injection Hstep as <-.
    destruct ev as [name value|]; [discriminate|]. simpl.
    destruct (SignUp.submittable sst),
      (truthy (SignUp.email (SignUp.formData sst))),
      (truthy (SignUp.password (SignUp.formData sst))),
      (truthy (SignUp.confirmPassword (SignUp.formData sst)));
      simpl; try discriminate.
    by case_bool_decide.
  - destruct (Chat.step env cst0 ev) as [[st' effs]|] eqn:E; [|discriminate].
    rewrite (chat_step_stays _ _ _ _ _ _ E) in Hstep.
    by injection Hstep as <-.
  - destruct (Moot.step env mst0 ev) as [[st' effs]|] eqn:E; [|discriminate].
    rewrite (moot_step_stays _ _ _ _ _ _ E) in Hstep.
    by injection Hstep as <-.
Qed.

Lemma no_dead_link_witness :
  App.reachable (App.ChatPage (Chat.mount (Sample.at_ms 0))) /\
  App.ChatPage (Chat.mount (Sample.at_ms 0)) <> App.NoMatch.
Proof.
  assert (Hr : App.reachable (App.ChatPage (Chat.mount (Sample.at_ms 0)))).
  { apply (App.reachable_step (Sample.at_ms 0)
             (App.LoginPage Sample.loginFilled)
             (App.LoginEvent Login.Submit)); [|reflexivity].
    apply (App.reachable_step (Sample.at_ms 0)
             (App.LoginPage
                (Login.handleChange Login.Email (lit "a@b.in") Login.mount))
             (App.LoginEvent (Login.Change Login.Password (lit "pw"))));
      [|reflexivity].
    apply (App.reachable_step (Sample.at_ms 0) (App.LoginPage Login.mount)
             (App.LoginEvent (Login.Change Login.Email (lit "a@b.in"))));
      [|reflexivity].
    apply (App.reachable_step (Sample.at_ms 0) App.LandingPage
             App.LandingLogin); [|reflexivity].
    apply App.reachable_landing. }
  split; [exact Hr|]. apply no_dead_link. exact Hr.
Defined.

(** ** The sides of the argument floor *)

Lemma floor_sides_of_senders (st : Moot.State) :
  Moot.isUser <$> Moot.argumentFloor st
  = omap (fun s => if bool_decide (s = judge) then None
                   else Some (bool_decide (s = user)))
      (sender <$> Moot.messages st).
Proof.
  unfold Moot.argumentFloor.
  induction (Moot.messages st) as [|m l IH]; [reflexivity|].
  csimpl. case_bool_decide; csimpl; [exact IH|]. by rewrite IH.
Qed.

Lemma sides_of_exchanges (n : nat) :
  omap (fun s => if bool_decide (s = judge) then None
                 else Some (bool_decide (s = user)))
    (Moot.exchanges n)
  = mjoin (replicate n [true; false]).
Proof.
  induction n as [|n IH]; [reflexivity|].
  rewrite exchanges_S, omap_app, IH, replicate_S_end, join_app.
  reflexivity.
Qed.

(** In every reachable state of the moot-court screen the rows of the
    argument floor alternate: the user's argument on the right, then the
    opponent's reply on the left, and so on; the last row is the user's
    exactly while the opponent's reply is pending. *)
Theorem floor_alternates (st : Moot.State) :
  Moot.reachable st ->
  exists n,
    Moot.isUser <$> Moot.argumentFloor st
    = mjoin (replicate n [true; false])
      ++ match Moot.timers st with
         | (_, Moot.OpponentTurn) :: _ => [true]
         | (_, Moot.JudgeTurn) :: _ => [true; false]
         | [] => []
         end.
Proof.
  intros Hr. destruct (moot_senders_shape st Hr) as [n Hn]. exists n.
  rewrite floor_sides_of_senders, Hn, omap_app, sides_of_exchanges.
  f_equal. by destruct (Moot.timers st) as [|[d [|]] q].
Qed.

Lemma floor_alternates_witness :
  exists n,
    Moot.isUser <$> Moot.argumentFloor Sample.mootOpposed
    = mjoin (replicate n [true; false])
      ++ match Moot.timers Sample.mootOpposed with
         | (_, Moot.OpponentTurn) :: _ => [true]
         | (_, Moot.JudgeTurn) :: _ => [true; false]
         | [] => []
         end.
Proof.
  apply floor_alternates.
  apply (moot_run_reachable (take 3 Sample.oneArgument) Moot.mount);
    [apply Moot.reachable_mount | reflexivity].
Defined.

Lemma latest_judge_is_last_witness :
  Moot.latestJudgeMessage Sample.mootOpposed
  = Some {| id := 1; text := Moot.openingText; image := None;
            sender := judge; timestamp := None |}.
Proof.
  apply (proj1 (latest_judge_is_last Sample.mootOpposed)).
  exists [], (drop 1 (Moot.messages Sample.mootOpposed)).
  split; [reflexivity|]. split; [reflexivity|].
  intros x Hx. simpl in Hx.
  apply elem_of_cons in Hx as [->|Hx]; [discriminate|].
  apply list_elem_of_singleton in Hx. subst. discriminate.
Defined.
